(** * The evaluation pipeline's dispatch queue and decision engine

    A shallow embedding of the Go sources

    - [internal/queue/redis.go] (task queue and key-value facet),
    - [internal/models/models.go] (the entities),
    - the request handlers of package [api] ([createConversation],
      [triggerEvaluation], [getAnnotatorAgreement], [getRoutingDecision]),

    and the properties the specification states about them. *)

From Stdlib Require Import ZArith Lia PrimFloat Uint63 Ascii.
From stdpp Require Import gmap strings list fin_maps sorting.

(** Decimal constants such as 0.8 and 0.4 denote, here as in Go, the nearest
    binary64 value. *)
Set Warnings "-inexact-float".

Local Open Scope string_scope.
Local Open Scope list_scope.
Local Open Scope Z_scope.

(** ** Go's [int] and [float64] *)

(** [int] is 64 bits wide on the platforms the service runs on; arithmetic
    wraps around in two's complement. *)
Definition wrap64 (z : Z) : Z := (z + 2 ^ 63) `mod` 2 ^ 64 - 2 ^ 63.

Definition maxInt : Z := 2 ^ 63 - 1.

(** [len(s)] of a slice, as an [int]. A slice never holds more than [maxInt]
    elements. *)
Definition len {A} (s : list A) : Z := Z.of_nat (length s).

(** The conversion [float64(n)] of an [int]: the nearest binary64 value. *)
Definition float64_of_int (n : Z) : float :=
  if n =? - 2 ^ 63 then PrimFloat.opp 0x1p+63%float
  else if n <? 0 then PrimFloat.opp (PrimFloat.of_uint63 (Uint63.of_Z (- n)))
  else PrimFloat.of_uint63 (Uint63.of_Z n).

(** ** [database/sql] null wrappers *)

Record NullFloat64 := { nullFloat64 : float; nullFloat64Valid : bool }.
Record NullString := { nullString : string; nullStringValid : bool }.
Record NullInt32 := { nullInt32 : Z; nullInt32Valid : bool }.

(** ** Go's [(T, error)] results

    An [error] is kept as its message; [None] is the [nil] error. *)

Inductive result (A : Type) : Type :=
| Ok (a : A)
| Err (e : string).
Arguments Ok {A} a.
Arguments Err {A} e.

#[global] Instance result_ret : MRet result := λ A, Ok.
#[global] Instance result_bind : MBind result := λ A B f r,
  match r with
  | Ok a => f a
  | Err e => Err e
  end.

(** ** JSON texts

    A JSON text is kept as the document it denotes. A string holds its
    content (escapes resolved), a number its literal. *)
#[local] Unset Elimination Schemes.
Inductive json : Type :=
| JNull
| JBool (b : bool)
| JNumber (literal : string)
| JString (s : string)
| JArray (elements : list json)
| JObject (members : list (string * json)).
#[local] Set Elimination Schemes.

(** *** Invalid UTF-8 in strings

    [encoding/json] writes a string by [utf8.DecodeRuneInString]: a byte that
    does not start a well-formed encoding is written as U+FFFD, and the
    decoder does the same when it unquotes a string. *)

Definition byteOf (c : ascii) : Z := Z.of_N (N_of_ascii c).

Definition continuation (c : ascii) : bool :=
  (0x80 <=? byteOf c) && (byteOf c <=? 0xBF).

(** The width of the well-formed encoding at the front of [s], if there is
    one ([first] and [acceptRanges] of package [unicode/utf8]). *)
Definition utf8Width (s : string) : option nat :=
  match s with
  | EmptyString => None
  | String c0 s1 =>
      let b0 := byteOf c0 in
      if b0 <? 0x80 then Some 1%nat
      else if (b0 <? 0xC2) || (0xF4 <? b0) then None
      else
        let size := if b0 <? 0xE0 then 2%nat else if b0 <? 0xF0 then 3%nat else 4%nat in
        let lo := if b0 =? 0xE0 then 0xA0 else if b0 =? 0xF0 then 0x90 else 0x80 in
        let hi := if b0 =? 0xED then 0x9F else if b0 =? 0xF4 then 0x8F else 0xBF in
        match s1 with
        | EmptyString => None
        | String c1 s2 =>
            if negb ((lo <=? byteOf c1) && (byteOf c1 <=? hi)) then None
            else if (size =? 2)%nat then Some 2%nat
            else
              match s2 with
              | EmptyString => None
              | String c2 s3 =>
                  if negb (continuation c2) then None
                  else if (size =? 3)%nat then Some 3%nat
                  else
                    match s3 with
                    | EmptyString => None
                    | String c3 _ => if continuation c3 then Some 4%nat else None
                    end
              end
        end
  end.

(** U+FFFD in UTF-8: EF BF BD. *)
Definition replacementChar : string :=
  String "239"%char (String "191"%char (String "189"%char EmptyString)).

(** [pending] bytes of an encoding already accepted are copied; then the next
    byte either starts a well-formed encoding or is replaced. *)
Fixpoint coerceUTF8 (pending : nat) (s : string) : string :=
  match s with
  | EmptyString => EmptyString
  | String c rest =>
      match pending with
      | S k => String c (coerceUTF8 k rest)
      | O =>
          match utf8Width s with
          | Some w => String c (coerceUTF8 (Nat.pred w) rest)
          | None => (replacementChar ++ coerceUTF8 0 rest)%string
          end
      end
  end.

Definition toValidUTF8 (s : string) : string := coerceUTF8 0 s.

(** *** What [encoding/json] is given to do

    The program hands [time.Time] values and the contents of
    [interface{}] variables to [encoding/json]; what the library does with
    them is an interface the development is stated over. *)

(** [time.Time] as a [json.Marshaler] and [json.Unmarshaler]: [MarshalJSON]
    (it fails for a year outside 0..9999), [UnmarshalJSON] on a receiver
    holding a given time, and the zero time. *)
Class TimeJSON (GoTime : Type) := {
  marshalTime : GoTime → result json;
  unmarshalTime : json → GoTime → result GoTime;
  zeroTime : GoTime
}.

(** The Go values a [map[string]interface{}] holds: [json.Marshal] of such a
    value (it fails on channels, functions, NaN ...) and [json.Unmarshal] of
    a document into an empty [interface{}]. *)
Class ValueJSON (Value : Type) := {
  marshalValue : Value → result json;
  unmarshalValue : json → Value
}.

(** The variable a [dest interface{}] points to: [json.Unmarshal(data, dest)]
    gives its content afterwards and the error. *)
Class DestJSON (Dest : Type) := {
  unmarshalInto : json → Dest → Dest * option string
}.

Section AgentEval.

(** [time.Time] is only carried around by this program (stored, copied and
    handed to [encoding/json]); its values are kept abstract, and so are the
    values behind [interface{}]. *)
Context {GoTime Value Dest : Type}.
Context `{!TimeJSON GoTime, !ValueJSON Value, !DestJSON Dest}.

(** ** [models.Annotation] and [models.AnnotatorAgreement] *)

Record Annotation := {
  annID : Z;
  annConversationID : string;
  AnnotatorID : string;
  AnnotationType : string;
  Label : string;
  Score : NullFloat64;
  Confidence : NullFloat64;
  Notes : NullString;
  TimeSpentSeconds : NullInt32;
  annCreatedAt : GoTime
}.

Record AnnotatorAgreement := {
  aaConversationID : string;
  aaAnnotationType : string;
  Annotators : list string;
  AgreementScore : float;
  MajorityLabel : string;
  NeedsTiebreaker : bool;
  IndividualAnnotations : list Annotation
}.

(** ** The agreement computation of [getAnnotatorAgreement] *)

(** First loop: [annotators = append(annotators, ann.AnnotatorID)] and
    [labelCounts[ann.Label]++]; a missing key reads as 0. *)
Definition tallyStep (st : list string * gmap string Z) (ann : Annotation)
    : list string * gmap string Z :=
  let '(annotators, labelCounts) := st in
  (annotators ++ [AnnotatorID ann],
   <[Label ann := wrap64 (default 0 (labelCounts !! Label ann) + 1)]> labelCounts).

Definition tally (annotations : list Annotation) : list string * gmap string Z :=
  foldl tallyStep ([], ∅) annotations.

(** Second loop, [for label, count := range labelCounts]: the body, run on the
    entries in the order the [range] statement produces them. *)
Definition majorityStep (st : string * Z) (entry : string * Z) : string * Z :=
  let '(majorityLabel, maxCount) := st in
  let '(label, count) := entry in
  if maxCount <? count then (label, count) else (majorityLabel, maxCount).

Definition scanMajority (order : list (string * Z)) : string * Z :=
  foldl majorityStep ("", 0) order.

(** Go leaves the iteration order of a map unspecified: a [range] over a map
    visits every entry exactly once, in an order that may change from one
    run to the next. [order] is such a visit of [m]. *)
Definition rangeOrder (m : gmap string Z) (order : list (string * Z)) : Prop :=
  order ≡ₚ map_to_list m.

(** The map iteration of one run: for every map some visit of it. *)
Definition mapRange (visit : gmap string Z → list (string * Z)) : Prop :=
  ∀ m, rangeOrder m (visit m).

(** Lines 390-423; [threshold] is [s.cfg.AnnotatorAgreementThreshold] and
    [visit] the map iteration of this run, which gives the order in which
    [range labelCounts] yields the entries. *)
Definition computeAgreement (threshold : float) (visit : gmap string Z → list (string * Z))
    (conversationID annotationType : string) (annotations : list Annotation)
    : AnnotatorAgreement :=
  let '(annotators, labelCounts) := tally annotations in
  let '(majorityLabel, maxCount) := scanMajority (visit labelCounts) in
  let agreementScore :=
    if 1 <? len annotations
    then PrimFloat.div (float64_of_int maxCount) (float64_of_int (len annotations))
    else 1%float in
  let needsTiebreaker := PrimFloat.ltb agreementScore threshold in
  {| aaConversationID := conversationID;
     aaAnnotationType := annotationType;
     Annotators := annotators;
     AgreementScore := agreementScore;
     MajorityLabel := majorityLabel;
     NeedsTiebreaker := needsTiebreaker;
     IndividualAnnotations := annotations |}.

(** The number of annotations carrying label [l]. *)
Definition countLabel (l : string) (annotations : list Annotation) : Z :=
  len (filter (λ ann, Label ann = l) annotations).

(** The tie-break of the specification's wording: the label with the highest
    count, the first one met in the input winning a tie. *)
Fixpoint firstEncountered (all rest : list Annotation) (best : string) (bestCount : Z)
    : string :=
  match rest with
  | [] => best
  | ann :: rest' =>
      if bestCount <? countLabel (Label ann) all
      then firstEncountered all rest' (Label ann) (countLabel (Label ann) all)
      else firstEncountered all rest' best bestCount
  end.

Definition firstEncounteredMajority (annotations : list Annotation) : string :=
  firstEncountered annotations annotations "" 0.

(** Two different labels share the highest count. *)
Definition tiedForMost (annotations : list Annotation) : Prop :=
  ∃ l1 l2, l1 ≠ l2 ∧
    l1 ∈ Label <$> annotations ∧ l2 ∈ Label <$> annotations ∧
    countLabel l1 annotations = countLabel l2 annotations ∧
    ∀ l, countLabel l annotations ≤ countLabel l1 annotations.

(** ** [models.IssueDetected], [models.Evaluation], [models.RoutingDecision] *)

Record IssueDetected := {
  issueType : string;
  Severity : string;
  Description : string;
  TurnID : Z
}.

(** The [json.RawMessage] columns are byte strings. *)
Record Evaluation := {
  evalID : Z;
  EvaluationID : string;
  evalConversationID : string;
  OverallScore : float;
  ResponseQualityScore : float;
  ToolAccuracyScore : float;
  CoherenceScore : float;
  ToolEvaluation : string;
  IssuesDetected : string;
  ImprovementSuggestions : string;
  EvaluatorVersion : string;
  EvaluationDurationMS : Z;
  evalCreatedAt : GoTime
}.

Record RoutingDecision := {
  rdConversationID : string;
  NeedsHumanReview : bool;
  Priority : string;
  RoutingReason : list string;
  AutoLabel : bool;
  SuggestedAnnotationTypes : list string
}.

(** ** The routing computation of [getRoutingDecision] *)

(** [json.Unmarshal(eval.IssuesDetected, &issues)] with its error dropped:
    whatever the decoder leaves in [issues], a function of the stored bytes. *)
Variable unmarshalIssues : string → list IssueDetected.

(** [for _, issue := range issues { if issue.Severity == "critical" { criticalCount++ } }] *)
Definition countCritical (issues : list IssueDetected) : Z :=
  foldl (λ criticalCount issue,
           if decide (Severity issue = "critical")
           then wrap64 (criticalCount + 1) else criticalCount)
        0 issues.

(** The loop over [issues] that extends [suggestedTypes]. *)
Definition suggestStep (suggestedTypes : list string) (issue : IssueDetected)
    : list string :=
  let suggestedTypes :=
    if decide (issueType issue = "tool" ∨ issueType issue = "tool_execution_failure")
    then suggestedTypes ++ ["tool_accuracy"] else suggestedTypes in
  if decide (issueType issue = "context_loss" ∨ issueType issue = "coherence")
  then suggestedTypes ++ ["coherence"] else suggestedTypes.

Definition suggestTypes (issues : list IssueDetected) : list string :=
  foldl suggestStep ["general_quality"] issues.

(** Lines 446-491, from the latest evaluation [eval] of the conversation. *)
Definition routeEvaluation (conversationID : string) (eval : Evaluation)
    : RoutingDecision :=
  let issues := unmarshalIssues (IssuesDetected eval) in
  let needsReview := false in
  let routingReason : list string := [] in
  let priority := "low" in
  let '(needsReview, routingReason, priority) :=
    if PrimFloat.ltb (OverallScore eval) 0.4%float
    then (true, routingReason ++ ["Low quality score"], "high")
    else (needsReview, routingReason, priority) in
  let criticalCount := countCritical issues in
  let '(needsReview, routingReason, priority) :=
    if 0 <? criticalCount
    then (true, routingReason ++ ["Critical issues detected"], "high")
    else (needsReview, routingReason, priority) in
  let suggestedTypes := suggestTypes issues in
  {| rdConversationID := conversationID;
     NeedsHumanReview := needsReview;
     Priority := priority;
     RoutingReason := routingReason;
     AutoLabel := negb needsReview;
     SuggestedAnnotationTypes := suggestedTypes |}.

(** ** [queue.Task] and its JSON form *)

(** A slice or map is [None] when it is [nil]. *)
Record Task := {
  ID : string;
  taskType : string;
  taskConversationID : string;
  EvaluatorTypes : option (list string);
  Payload : option (gmap string Value);
  CreatedAt : GoTime
}.

(** The value of [var task Task]. *)
Definition zeroTask : Task :=
  {| ID := ""; taskType := ""; taskConversationID := "";
     EvaluatorTypes := None; Payload := None; CreatedAt := zeroTime |}.

(** *** Encoding *)

Definition encodeString (s : string) : json := JString (toValidUTF8 s).

Definition encodeStrings (l : list string) : json := JArray (encodeString <$> l).

(** A map is written with its keys sorted. *)
Definition sortedEntries (m : gmap string Value) : list (string * Value) :=
  merge_sort (λ e1 e2, String.leb e1.1 e2.1) (map_to_list m).

Definition encodeMember (e : string * Value) : result (string * json) :=
  j ← marshalValue e.2; Ok (toValidUTF8 e.1, j).

Definition encodeMap (m : gmap string Value) : result json :=
  members ← mapM encodeMember (sortedEntries m); Ok (JObject members).

(** [json.Marshal(task)] by the struct tags of [Task]: the fields in
    declaration order, [evaluator_types] and [payload] left out when empty
    ([omitempty]: a nil or zero-length slice or map). *)
Definition marshalTask (t : Task) : result json :=
  let evaluatorTypes :=
    match EvaluatorTypes t with
    | Some (e :: l) => [("evaluator_types", encodeStrings (e :: l))]
    | _ => []
    end in
  payload ←
    match Payload t with
    | Some m =>
        if decide (size m = 0%nat) then Ok []
        else j ← encodeMap m; Ok [("payload", j)]
    | None => Ok []
    end;
  createdAt ← marshalTime (CreatedAt t);
  Ok (JObject ([("id", encodeString (ID t));
                ("type", encodeString (taskType t));
                ("conversation_id", encodeString (taskConversationID t))]
               ++ evaluatorTypes ++ payload ++ [("created_at", createdAt)])).

(** [json.Marshal] of a [*Task]: a nil pointer is written as [null]. *)
Definition marshalTaskPtr (task : option Task) : result json :=
  match task with
  | Some t => marshalTask t
  | None => Ok JNull
  end.

(** *** Decoding

    [null] leaves a string as it is and sets a slice or map to nil; a
    document of the wrong kind is an [UnmarshalTypeError]. *)

(** The word for a document in the text of an [UnmarshalTypeError]. *)
Definition kindOf (j : json) : string :=
  match j with
  | JNull => "null"
  | JBool _ => "bool"
  | JNumber _ => "number"
  | JString _ => "string"
  | JArray _ => "array"
  | JObject _ => "object"
  end.

(** The text of an [UnmarshalTypeError] met under the field of [Task]
    tagged [field], for a Go value of type [goType]. *)
Definition typeError (j : json) (field goType : string) : string :=
  "json: cannot unmarshal " ++ kindOf j ++ " into Go struct field Task." ++ field
  ++ " of type " ++ goType.

Definition decodeString (field : string) (j : json) (old : string) : result string :=
  match j with
  | JString s => Ok (toValidUTF8 s)
  | JNull => Ok old
  | _ => Err (typeError j field "string")
  end.

Definition decodeStrings (j : json) : result (option (list string)) :=
  match j with
  | JArray elements =>
      l ← mapM (λ e, decodeString "evaluator_types" e "") elements; Ok (Some l)
  | JNull => Ok None
  | _ => Err (typeError j "evaluator_types" "[]string")
  end.

(** An object is decoded into the map already there, if any, member by
    member; of two members with one key the later one stays. *)
Definition decodeMap (j : json) (old : option (gmap string Value))
    : result (option (gmap string Value)) :=
  match j with
  | JObject members =>
      Ok (Some (foldl (λ m member, <[toValidUTF8 member.1 := unmarshalValue member.2]> m)
                      (default ∅ old) members))
  | JNull => Ok None
  | _ => Err (typeError j "payload" "map[string]interface {}")
  end.

Definition lowerASCII (c : ascii) : ascii :=
  if (0x41 <=? byteOf c) && (byteOf c <=? 0x5A)
  then ascii_of_N (N_of_ascii c + 32) else c.

(** Whether the member name [key] selects the field tagged [name], a tag of
    lower-case ASCII letters and underscores: the two are equal up to the
    case of ASCII letters, where U+017F (long s, bytes C5 BF) also stands
    for an s and U+212A (Kelvin sign, bytes E2 84 AA) for a k. The tags of
    [Task] differ from one another also up to this folding, so that the
    decoder's preference for an exact match changes nothing. *)
Fixpoint equalFold (key name : string) : bool :=
  match name, key with
  | EmptyString, EmptyString => true
  | String c name', String b key' =>
      if Ascii.eqb (lowerASCII b) c then equalFold key' name'
      else if Ascii.eqb c "s" then
        match key with
        | String "197" (String "191" key'') => equalFold key'' name'
        | _ => false
        end
      else if Ascii.eqb c "k" then
        match key with
        | String "226" (String "132" (String "170" key'')) => equalFold key'' name'
        | _ => false
        end
      else false
  | _, _ => false
  end.

(** One member of the object, stored into the field its name selects;
    members that select no field are skipped. *)
Definition decodeMember (t : Task) (member : string * json) : result Task :=
  let '(key, j) := member in
  let name := toValidUTF8 key in
  if equalFold name "id" then
    s ← decodeString "id" j (ID t);
    Ok {| ID := s; taskType := taskType t; taskConversationID := taskConversationID t;
          EvaluatorTypes := EvaluatorTypes t; Payload := Payload t; CreatedAt := CreatedAt t |}
  else if equalFold name "type" then
    s ← decodeString "type" j (taskType t);
    Ok {| ID := ID t; taskType := s; taskConversationID := taskConversationID t;
          EvaluatorTypes := EvaluatorTypes t; Payload := Payload t; CreatedAt := CreatedAt t |}
  else if equalFold name "conversation_id" then
    s ← decodeString "conversation_id" j (taskConversationID t);
    Ok {| ID := ID t; taskType := taskType t; taskConversationID := s;
          EvaluatorTypes := EvaluatorTypes t; Payload := Payload t; CreatedAt := CreatedAt t |}
  else if equalFold name "evaluator_types" then
    l ← decodeStrings j;
    Ok {| ID := ID t; taskType := taskType t; taskConversationID := taskConversationID t;
          EvaluatorTypes := l; Payload := Payload t; CreatedAt := CreatedAt t |}
  else if equalFold name "payload" then
    m ← decodeMap j (Payload t);
    Ok {| ID := ID t; taskType := taskType t; taskConversationID := taskConversationID t;
          EvaluatorTypes := EvaluatorTypes t; Payload := m; CreatedAt := CreatedAt t |}
  else if equalFold name "created_at" then
    c ← unmarshalTime j (CreatedAt t);
    Ok {| ID := ID t; taskType := taskType t; taskConversationID := taskConversationID t;
          EvaluatorTypes := EvaluatorTypes t; Payload := Payload t; CreatedAt := c |}
  else Ok t.

(** The members in their order. An [UnmarshalTypeError] is kept ([saved],
    the first one met) and decoding goes on with the next member; the error
    of [Time.UnmarshalJSON] ends decoding at once. At the end the kept error,
    if any, is the outcome. *)
Fixpoint decodeMembers (t : Task) (saved : option string) (members : list (string * json))
    : result Task :=
  match members with
  | [] =>
      match saved with
      | Some e => Err e
      | None => Ok t
      end
  | member :: members' =>
      match decodeMember t member with
      | Ok t' => decodeMembers t' saved members'
      | Err e =>
          if equalFold (toValidUTF8 member.1) "created_at" then Err e
          else decodeMembers t (Some (default e saved)) members'
      end
  end.

(** [json.Unmarshal(data, &task)]. *)
Definition unmarshalTask (data : json) (task : Task) : result Task :=
  match data with
  | JObject members => decodeMembers task None members
  | JNull => Ok task
  | _ => Err ("json: cannot unmarshal " ++ kindOf data ++ " into Go value of type queue.Task")
  end.

(** *** What a round trip through JSON keeps *)

(** A text the encoder writes unchanged: valid UTF-8. *)
Definition validText (s : string) : Prop := toValidUTF8 s = s.

(** A payload value that [json.Marshal] accepts and that decoding its
    document into an [interface{}] gives back. *)
Definition valueSurvives (v : Value) : Prop :=
  ∃ j, marshalValue v = Ok j ∧ unmarshalValue j = v.

(** A time that [MarshalJSON] accepts and [UnmarshalJSON] gives back. *)
Definition timeSurvives (c : GoTime) : Prop :=
  ∃ j, marshalTime c = Ok j ∧ unmarshalTime j zeroTime = Ok c.

Definition fieldsSurvive (t : Task) : Prop :=
  validText (ID t) ∧ validText (taskType t) ∧ validText (taskConversationID t) ∧
  Forall validText (default [] (EvaluatorTypes t)) ∧
  map_Forall (λ k v, validText k ∧ valueSurvives v) (default ∅ (Payload t)) ∧
  timeSurvives (CreatedAt t).

(** The task with its empty slice and empty map replaced by nil: what
    [omitempty] makes of it. *)
Definition omitEmpty (t : Task) : Task :=
  {| ID := ID t; taskType := taskType t; taskConversationID := taskConversationID t;
     EvaluatorTypes :=
       match EvaluatorTypes t with
       | Some (e :: l) => Some (e :: l)
       | _ => None
       end;
     Payload :=
       match Payload t with
       | Some m => if decide (size m = 0%nat) then None else Some m
       | None => None
       end;
     CreatedAt := CreatedAt t |}.

(** ** The Redis server behind [RedisQueue]

    One keyspace of strings and lists; [connected] is false while the server
    cannot be reached. A value written by this program is the JSON text
    [json.Marshal] returned, kept here as its document. *)

Inductive redisValue : Type :=
| RString (data : json)
| RList (elements : list json).

Record Redis := {
  connected : bool;
  keyspace : gmap string redisValue
}.

(** What a go-redis command hands back: a reply, [redis.Nil], or an error. *)
Inductive reply (A : Type) : Type :=
| Reply (a : A)
| ReplyNil
| ReplyErr (e : string).
Arguments Reply {A} a.
Arguments ReplyNil {A}.
Arguments ReplyErr {A} e.

(** [cmd.Err()]. *)
Definition replyErr {A} (rep : reply A) : option string :=
  match rep with
  | Reply _ => None
  | ReplyNil => Some "redis: nil"
  | ReplyErr e => Some e
  end.

Definition errConnection : string := "dial tcp: connect: connection refused".
Definition errWrongType : string :=
  "WRONGTYPE Operation against a key holding the wrong kind of value".

(** RPUSH: append at the tail, creating the list; the reply is the new length. *)
Definition RPush (key : string) (data : json) (r : Redis) : reply Z * Redis :=
  if connected r then
    match keyspace r !! key with
    | None =>
        (Reply 1, {| connected := true; keyspace := <[key := RList [data]]> (keyspace r) |})
    | Some (RList l) =>
        (Reply (len (l ++ [data])),
         {| connected := true; keyspace := <[key := RList (l ++ [data])]> (keyspace r) |})
    | Some (RString _) => (ReplyErr errWrongType, r)
    end
  else (ReplyErr errConnection, r).

(** A [time.Duration] counts nanoseconds. *)
Definition Second : Z := 1000000000.

(** go-redis sends the timeout of a blocking command in whole seconds
    ([formatSec]): one second for a positive duration below a second,
    otherwise the duration divided by a second, rounded towards zero. *)
Definition formatSec (dur : Z) : Z :=
  if (0 <? dur) && (dur <? Second) then 1 else dur ÷ Second.

Definition errNegativeTimeout : string := "ERR timeout is negative".

(** The client's read deadline has passed; the text of the network error
    starts with the addresses of the connection. *)
Definition errReadTimeout : string := "i/o timeout".

(** BLPOP through go-redis, with no other client at work. The server
    refuses a negative number of seconds before it looks at the key.
    Otherwise it removes the head and replies with the key and the element,
    whatever the timeout; a list that becomes empty is removed. With
    nothing to pop it replies [redis.Nil] once a positive number of seconds
    has passed, and never replies for 0 seconds: then the client, which
    waits for a reply ten seconds longer than a timeout other than zero and
    without limit for the timeout zero, gives up with a read error for a
    negative timeout above minus one second, and for the timeout zero the
    call does not return ([None]). *)
Definition BLPop (timeout : Z) (key : string) (r : Redis)
    : option (reply (string * json) * Redis) :=
  if connected r then
    if formatSec timeout <? 0 then Some (ReplyErr errNegativeTimeout, r)
    else
      match keyspace r !! key with
      | None | Some (RList []) =>
          if 0 <? formatSec timeout then Some (ReplyNil, r)
          else if timeout =? 0 then None
          else Some (ReplyErr errReadTimeout, r)
      | Some (RList [data]) =>
          Some (Reply (key, data),
                {| connected := true; keyspace := delete key (keyspace r) |})
      | Some (RList (data :: l)) =>
          Some (Reply (key, data),
                {| connected := true; keyspace := <[key := RList l]> (keyspace r) |})
      | Some (RString _) => Some (ReplyErr errWrongType, r)
      end
  else Some (ReplyErr errConnection, r).

(** LLEN. *)
Definition LLen (key : string) (r : Redis) : reply Z :=
  if connected r then
    match keyspace r !! key with
    | None => Reply 0
    | Some (RList l) => Reply (len l)
    | Some (RString _) => ReplyErr errWrongType
    end
  else ReplyErr errConnection.

(** GET. *)
Definition RGet (key : string) (r : Redis) : reply json :=
  if connected r then
    match keyspace r !! key with
    | None => ReplyNil
    | Some (RString data) => Reply data
    | Some (RList _) => ReplyErr errWrongType
    end
  else ReplyErr errConnection.

(** DEL. *)
Definition Del (key : string) (r : Redis) : reply Z * Redis :=
  if connected r then
    match keyspace r !! key with
    | None => (Reply 0, r)
    | Some _ => (Reply 1, {| connected := true; keyspace := delete key (keyspace r) |})
    end
  else (ReplyErr errConnection, r).

(** ** [RedisQueue] *)

(** [Enqueue]: the returned error, and the server afterwards. *)
Definition Enqueue (queueName : string) (task : option Task) (r : Redis)
    : option string * Redis :=
  match marshalTaskPtr task with
  | Err e => (Some ("failed to marshal task: " ++ e)%string, r)
  | Ok data => let '(rep, r') := RPush queueName data r in (replyErr rep, r')
  end.

(** [Dequeue]: the returned task and error, and the server afterwards;
    [None] when the call does not return. The reply of BLPOP always has its
    two parts, so the guard [len(result) < 2] never fires. *)
Definition Dequeue (queueName : string) (timeout : Z) (r : Redis)
    : option ((option Task * option string) * Redis) :=
  match BLPop timeout queueName r with
  | None => None
  | Some (rep, r') =>
      Some
        (match rep with
         | ReplyNil => (None, None)
         | ReplyErr e => (None, Some ("failed to dequeue task: " ++ e)%string)
         | Reply (_, data) =>
             match unmarshalTask data zeroTask with
             | Err e => (None, Some ("failed to unmarshal task: " ++ e)%string)
             | Ok task => (Some task, None)
             end
         end, r')
  end.

Definition QueueLength (queueName : string) (r : Redis) : result Z :=
  match LLen queueName r with
  | Reply n => Ok n
  | ReplyNil => Err "redis: nil"
  | ReplyErr e => Err e
  end.

(** [Get(key, dest)]: [dest] points to a Go variable; its content before and
    after the call is a [Dest]. *)

Definition Get (key : string) (dest : Dest) (r : Redis) : option string * Dest :=
  match RGet key r with
  | ReplyNil => (None, dest)
  | ReplyErr e => (Some ("failed to get value: " ++ e)%string, dest)
  | Reply data => let '(dest', err) := unmarshalInto data dest in (err, dest')
  end.

Definition Delete (key : string) (r : Redis) : option string * Redis :=
  let '(rep, r') := Del key r in (replyErr rep, r').

(** ** The entities of ingestion ([models.go]) *)

Record ToolCall := {
  ToolName : string;
  Parameters : option (gmap string Value);
  toolResult : option (gmap string Value);
  LatencyMS : Z
}.

Record Turn := {
  turnID : Z;
  Role : string;
  Content : string;
  ToolCalls : list ToolCall;
  Timestamp : GoTime
}.

Record OpsReview := { Quality : string; opsNotes : string }.

Record AnnotationItem := {
  itemType : string;
  itemLabel : string;
  itemAnnotatorID : string;
  itemScore : float;
  itemConfidence : float
}.

(** A pointer field is [None] when it is nil. *)
Record Feedback := {
  UserRating : Z;
  fbOpsReview : option OpsReview;
  fbAnnotations : list AnnotationItem
}.

Record ConversationMetadata := { TotalLatencyMS : Z; MissionCompleted : bool }.

Record Conversation := {
  convID : Z;
  ConversationID : string;
  AgentVersion : string;
  Turns : string;
  Metadata : string;
  convCreatedAt : GoTime;
  convUpdatedAt : GoTime
}.

Record ConversationCreate := {
  ccConversationID : string;
  ccAgentVersion : string;
  ccTurns : list Turn;
  ccFeedback : option Feedback;
  ccMetadata : option ConversationMetadata
}.

Record EvaluationRequest := {
  reqConversationID : string;
  reqEvaluatorTypes : option (list string)
}.

(** ** The server and its handlers *)

(** The repository runs SQL against a database; the state of that database
    and what the repository's methods return on it are an interface. *)
Class Repository (Repo : Type) := {
  repoCreateConversation : ConversationCreate → Repo → result Conversation * Repo;
  repoGetConversation : string → Repo → result (option Conversation);
  repoGetAnnotationsForConversation : string → string → Repo → result (list Annotation);
  repoGetLatestEvaluationForConversation : string → Repo → result (option Evaluation)
}.

Context {Repo : Type} `{!Repository Repo}.

(** What a handler can reach through [*Server] and change. *)
Record Server := {
  repo : Repo;
  queue : Redis
}.

(** The body of a response written with [c.JSON]. *)
Inductive Body : Type :=
| ErrorBody (message : string)
| ConversationBody (c : Conversation)
| QueuedBody (taskID conversationID status : string)
| AgreementBody (a : AnnotatorAgreement)
| RoutingBody (d : RoutingDecision).

Record Response := {
  status : Z;
  body : Body
}.

Definition StatusOK : Z := 200.
Definition StatusCreated : Z := 201.
Definition StatusBadRequest : Z := 400.
Definition StatusNotFound : Z := 404.
Definition StatusInternalServerError : Z := 500.

Definition defaultEvaluatorTypes : list string :=
  ["llm_judge"; "tool_call"; "coherence"; "heuristic"].

(** The task literal of [createConversation]. *)
Definition ingestTask (conv : ConversationCreate) (taskID : string) (now : GoTime) : Task :=
  {| ID := taskID; taskType := "evaluate";
     taskConversationID := ccConversationID conv;
     EvaluatorTypes := Some defaultEvaluatorTypes;
     Payload := None; CreatedAt := now |}.

(** The task literal of [triggerEvaluation], with the default evaluator
    types when the request names none. *)
Definition triggerTask (req : EvaluationRequest) (taskID : string) (now : GoTime) : Task :=
  let evaluatorTypes :=
    if decide (len (default [] (reqEvaluatorTypes req)) = 0)
    then Some defaultEvaluatorTypes
    else reqEvaluatorTypes req in
  {| ID := taskID; taskType := "evaluate";
     taskConversationID := reqConversationID req;
     EvaluatorTypes := evaluatorTypes;
     Payload := None; CreatedAt := now |}.

(** [createConversation]. [bound] is the outcome of [c.ShouldBindJSON(&conv)],
    [autoEvaluateQuery] the query parameter [auto_evaluate] if present,
    [taskID] and [now] what [uuid.New().String()] and [time.Now()] return. *)
Definition createConversation (bound : result ConversationCreate)
    (autoEvaluateQuery : option string) (taskID : string) (now : GoTime) (s : Server)
    : Response * Server :=
  match bound with
  | Err e => ({| status := StatusBadRequest; body := ErrorBody e |}, s)
  | Ok conv =>
      let '(created, repo') := repoCreateConversation conv (repo s) in
      match created with
      | Err e =>
          ({| status := StatusInternalServerError; body := ErrorBody e |},
           {| repo := repo'; queue := queue s |})
      | Ok created =>
          let autoEvaluate := bool_decide (default "true" autoEvaluateQuery = "true") in
          let queue' :=
            if autoEvaluate then
              let task := ingestTask conv taskID now in
              (* the error of Enqueue is dropped *)
              (Enqueue "evaluations" (Some task) (queue s)).2
            else queue s in
          ({| status := StatusCreated; body := ConversationBody created |},
           {| repo := repo'; queue := queue' |})
      end
  end.

(** [triggerEvaluation]; [bound] is the outcome of [c.ShouldBindJSON(&req)]. *)
Definition triggerEvaluation (bound : result EvaluationRequest)
    (taskID : string) (now : GoTime) (s : Server) : Response * Server :=
  match bound with
  | Err e => ({| status := StatusBadRequest; body := ErrorBody e |}, s)
  | Ok req =>
      match repoGetConversation (reqConversationID req) (repo s) with
      | Err e => ({| status := StatusInternalServerError; body := ErrorBody e |}, s)
      | Ok None =>
          ({| status := StatusNotFound; body := ErrorBody "Conversation not found" |}, s)
      | Ok (Some _) =>
          let task := triggerTask req taskID now in
          let '(err, queue') := Enqueue "evaluations" (Some task) (queue s) in
          match err with
          | Some _ =>
              ({| status := StatusInternalServerError;
                  body := ErrorBody "Failed to queue evaluation" |},
               {| repo := repo s; queue := queue' |})
          | None =>
              ({| status := StatusOK;
                  body := QueuedBody taskID (reqConversationID req) "queued" |},
               {| repo := repo s; queue := queue' |})
          end
      end
  end.

(** [getAnnotatorAgreement]; [annotationType] is the query parameter (empty
    when absent), [threshold] the configured agreement threshold, [visit]
    the map iteration of this run. *)
Definition getAnnotatorAgreement (threshold : float) (visit : gmap string Z → list (string * Z))
    (conversationID annotationType : string) (s : Server) : Response :=
  if decide (annotationType = "") then
    {| status := StatusBadRequest; body := ErrorBody "annotation_type is required" |}
  else
    match repoGetAnnotationsForConversation conversationID annotationType (repo s) with
    | Err e => {| status := StatusInternalServerError; body := ErrorBody e |}
    | Ok annotations =>
        {| status := StatusOK;
           body := AgreementBody
                     (computeAgreement threshold visit conversationID annotationType
                        annotations) |}
    end.

(** [getRoutingDecision]. *)
Definition getRoutingDecision (conversationID : string) (s : Server) : Response :=
  match repoGetLatestEvaluationForConversation conversationID (repo s) with
  | Err e => {| status := StatusInternalServerError; body := ErrorBody e |}
  | Ok None =>
      {| status := StatusNotFound; body := ErrorBody "No evaluation found for conversation" |}
  | Ok (Some eval) =>
      {| status := StatusOK; body := RoutingBody (routeEvaluation conversationID eval) |}
  end.

(** [batchCreateConversations] answers with a [models.BatchIngestResponse]. *)
Record BatchIngestResponse := {
  Ingested : Z;
  ConversationIDs : list string
}.

Inductive BatchBody : Type :=
| BatchErrorBody (message : string)
| BatchIngestBody (ingest : BatchIngestResponse).

Record BatchResponse := {
  batchStatus : Z;
  batchBody : BatchBody
}.

(** One iteration of [for _, conv := range convs]: a conversation the
    repository refuses is skipped, any other has its id appended and, with
    [autoEvaluate], its task enqueued, the error of [Enqueue] dropped. *)
Definition batchStep (autoEvaluate : bool) (taskID : string) (now : GoTime)
    (st : list string * Server) (conv : ConversationCreate) : list string * Server :=
  let '(conversationIDs, s) := st in
  let '(created, repo') := repoCreateConversation conv (repo s) in
  match created with
  | Err _ => (conversationIDs, {| repo := repo'; queue := queue s |})
  | Ok _ =>
      let conversationIDs := conversationIDs ++ [ccConversationID conv] in
      let queue' :=
        if autoEvaluate then
          (Enqueue "evaluations" (Some (ingestTask conv taskID now)) (queue s)).2
        else queue s in
      (conversationIDs, {| repo := repo'; queue := queue' |})
  end.

(** The loop from its iteration [i] on; [taskID i] and [now i] are what
    [uuid.New().String()] and [time.Now()] return in iteration [i]. *)
Fixpoint batchLoop (autoEvaluate : bool) (taskID : nat → string) (now : nat → GoTime)
    (i : nat) (convs : list ConversationCreate) (st : list string * Server)
    : list string * Server :=
  match convs with
  | [] => st
  | conv :: convs' =>
      batchLoop autoEvaluate taskID now (S i) convs'
        (batchStep autoEvaluate (taskID i) (now i) st conv)
  end.

(** [batchCreateConversations]; [bound] is the outcome of
    [c.ShouldBindJSON(&convs)]. *)
Definition batchCreateConversations (bound : result (list ConversationCreate))
    (autoEvaluateQuery : option string) (taskID : nat → string) (now : nat → GoTime)
    (s : Server) : BatchResponse * Server :=
  match bound with
  | Err e => ({| batchStatus := StatusBadRequest; batchBody := BatchErrorBody e |}, s)
  | Ok convs =>
      let autoEvaluate := bool_decide (default "true" autoEvaluateQuery = "true") in
      let '(conversationIDs, s') := batchLoop autoEvaluate taskID now 0 convs ([], s) in
      ({| batchStatus := StatusCreated;
          batchBody := BatchIngestBody {| Ingested := len conversationIDs;
                                          ConversationIDs := conversationIDs |} |},
       s')
  end.

(** The conversations of a batch handed to the repository one after the
    other: the ids of those it accepted, in their order, and the repository
    afterwards. *)
Fixpoint createAll (convs : list ConversationCreate) (repo0 : Repo) : list string * Repo :=
  match convs with
  | [] => ([], repo0)
  | conv :: convs' =>
      let '(created, repo1) := repoCreateConversation conv repo0 in
      let '(accepted, repo2) := createAll convs' repo1 in
      (match created with
       | Ok _ => ccConversationID conv :: accepted
       | Err _ => accepted
       end, repo2)
  end.

(** ** Keys with a time to live: [Set]

    [Set] writes a key with SET and an expiration. Beside the keyspace the
    server keeps, for a key written with a time to live, the instant of its
    clock (in milliseconds) after which the key is gone. The list commands
    of the queue set no time to live. *)

Record Store := {
  server : Redis;
  deadlines : gmap string Z;
  clock : Z
}.

(** A [time.Duration] counts nanoseconds. *)
Definition Millisecond : Z := 1000000.

(** [redis.KeepTTL]. *)
Definition KeepTTL : Z := -1.

(** What go-redis adds to SET for an [expiration]: for a positive one PX
    with its milliseconds, at least one (EX with the seconds when it is a
    whole number of seconds, which is the same time to live); KEEPTTL for
    [redis.KeepTTL]; nothing for zero and the other negative durations. *)
Inductive setOption : Type :=
| NoOption
| PX (milliseconds : Z)
| KEEPTTL.

(** The milliseconds sent for a positive [expiration]. *)
Definition timeToLive (expiration : Z) : Z :=
  if expiration <? Millisecond then 1 else expiration / Millisecond.

Definition setOption_of (expiration : Z) : setOption :=
  if 0 <? expiration then PX (timeToLive expiration)
  else if expiration =? KeepTTL then KEEPTTL
  else NoOption.

(** SET: the key holds the string whatever it held before; its earlier
    time to live is dropped unless KEEPTTL is given. *)
Definition RSet (key : string) (data : json) (opt : setOption) (st : Store)
    : reply string * Store :=
  if connected (server st) then
    (Reply "OK",
     {| server := {| connected := true;
                     keyspace := <[key := RString data]> (keyspace (server st)) |};
        deadlines :=
          match opt with
          | PX milliseconds => <[key := clock st + milliseconds]> (deadlines st)
          | KEEPTTL => deadlines st
          | NoOption => delete key (deadlines st)
          end;
        clock := clock st |})
  else (ReplyErr errConnection, st).

(** A key is there at instant [instant] unless its deadline has passed. *)
Definition alive (deadlines : gmap string Z) (instant : Z) (key : string) : bool :=
  match deadlines !! key with
  | Some deadline => bool_decide (instant ≤ deadline)
  | None => true
  end.

(** The server after [milliseconds] have passed: the keys whose deadline
    has passed are gone. *)
Definition elapse (milliseconds : Z) (st : Store) : Store :=
  let instant := clock st + milliseconds in
  {| server := {| connected := connected (server st);
                  keyspace := filter (λ entry, alive (deadlines st) instant entry.1 = true)
                                     (keyspace (server st)) |};
     deadlines := filter (λ entry, instant ≤ entry.2) (deadlines st);
     clock := instant |}.

(** [Set]: the returned error, and the server afterwards. *)
Definition SetKey (key : string) (value : Value) (expiration : Z) (st : Store)
    : option string * Store :=
  match marshalValue value with
  | Err e => (Some ("failed to marshal value: " ++ e)%string, st)
  | Ok data =>
      let '(rep, st') := RSet key data (setOption_of expiration) st in (replyErr rep, st')
  end.

(** ** Runs of the queue *)

(** The documents waiting under a key, head first. *)
Definition pending (queueName : string) (r : Redis) : list json :=
  match keyspace r !! queueName with
  | Some (RList l) => l
  | _ => []
  end.

(** The keyspace [ks] with the documents [l] waiting under [queueName]; a
    key with nothing waiting is not there. *)
Definition withPending (ks : gmap string redisValue) (queueName : string) (l : list json)
    : gmap string redisValue :=
  match l with
  | [] => delete queueName ks
  | _ => <[queueName := RList l]> ks
  end.

(** The tasks enqueued one after the other: the errors returned, and the
    server afterwards. *)
Fixpoint enqueueAll (queueName : string) (tasks : list Task) (r : Redis)
    : list (option string) * Redis :=
  match tasks with
  | [] => ([], r)
  | t :: tasks' =>
      let '(err, r1) := Enqueue queueName (Some t) r in
      let '(errs, r2) := enqueueAll queueName tasks' r1 in
      (err :: errs, r2)
  end.

(** [n] calls of [Dequeue] in a row: what they return, and the server
    afterwards; [None] when one of them does not return. *)
Fixpoint dequeueN (queueName : string) (timeout : Z) (n : nat) (r : Redis)
    : option (list (option Task * option string) * Redis) :=
  match n with
  | O => Some ([], r)
  | S n' =>
      match Dequeue queueName timeout r with
      | None => None
      | Some (out, r1) =>
          match dequeueN queueName timeout n' r1 with
          | None => None
          | Some (outs, r2) => Some (out :: outs, r2)
          end
      end
  end.

(** ** Properties of the agreement computation *)

Lemma wrap64_id (z : Z) : - 2 ^ 63 ≤ z ≤ maxInt → wrap64 z = z.
Proof.
  unfold wrap64, maxInt. intros Hz.
  rewrite Z.mod_small; lia.
Qed.

Lemma len_app {A} (s t : list A) : len (s ++ t) = len s + len t.
Proof. unfold len. rewrite length_app. lia. Qed.

Lemma len_nonneg {A} (s : list A) : 0 ≤ len s.
Proof. unfold len. lia. Qed.

Lemma countLabel_snoc l annotations ann :
  countLabel l (annotations ++ [ann]) =
  countLabel l annotations + (if decide (Label ann = l) then 1 else 0).
Proof.
  unfold countLabel. rewrite filter_app, len_app. f_equal.
  rewrite filter_cons, filter_nil. by case_decide.
Qed.

Lemma countLabel_range l annotations :
  0 ≤ countLabel l annotations ≤ len annotations.
Proof.
  unfold countLabel, len. pose proof (length_filter (λ ann, Label ann = l) annotations). lia.
Qed.

Lemma countLabel_pos l annotations :
  0 < countLabel l annotations ↔ l ∈ Label <$> annotations.
Proof.
  induction annotations as [|ann annotations IH] using rev_ind.
  - unfold countLabel, len. simpl. split; [lia | by intros ?%elem_of_nil].
  - rewrite countLabel_snoc, fmap_app, elem_of_app. simpl.
    rewrite list_elem_of_singleton. pose proof (countLabel_range l annotations) as Hc.
    case_decide as Heq; split.
    + intros _. by right.
    + lia.
    + intros Hpos. left. apply IH. lia.
    + intros [Hin%IH | Hl]; [lia | congruence].
Qed.

Lemma tally_snoc annotations ann :
  tally (annotations ++ [ann]) = tallyStep (tally annotations) ann.
Proof. unfold tally. by rewrite foldl_app. Qed.

Lemma tally_annotators annotations :
  (tally annotations).1 = AnnotatorID <$> annotations.
Proof.
  induction annotations as [|ann annotations IH] using rev_ind; [done |].
  rewrite tally_snoc, fmap_app. destruct (tally annotations) as [annotators labelCounts].
  simpl in *. by rewrite IH.
Qed.

(** After the first loop [labelCounts] holds, for every label that occurs, the
    number of its occurrences, and nothing else: the increments cannot wrap
    because a count is at most the length of the slice. *)
Lemma tally_lookup annotations l :
  len annotations ≤ maxInt →
  (tally annotations).2 !! l =
  if decide (countLabel l annotations = 0) then None else Some (countLabel l annotations).
Proof.
  induction annotations as [|ann annotations IH] using rev_ind; intros Hlen.
  - unfold tally. simpl. by rewrite lookup_empty.
  - rewrite tally_snoc, countLabel_snoc. rewrite len_app in Hlen.
    assert (len [ann] = 1) as Hone by done. rewrite Hone in Hlen.
    pose proof (len_nonneg annotations) as Hnn.
    destruct (tally annotations) as [annotators labelCounts] eqn:Htally. simpl in *.
    destruct (decide (Label ann = l)) as [-> | Hne].
    + rewrite lookup_insert_eq.
      rewrite IH by lia.
      pose proof (countLabel_range l annotations) as Hc.
      case_decide as Hz.
      * simpl. rewrite Hz. rewrite wrap64_id by (unfold maxInt; lia). by case_decide.
      * simpl. rewrite wrap64_id by (unfold maxInt in *; lia).
        case_decide; [lia | done].
    + rewrite lookup_insert_ne by done. rewrite IH by lia.
      by rewrite Z.add_0_r.
Qed.

(** The second loop keeps the first entry, in iteration order, whose count is
    above everything before it and is not exceeded later. *)
Lemma scan_first_max order l0 c0 l c :
  foldl majorityStep (l0, c0) order = (l, c) →
  (Forall (λ e, e.2 ≤ c0) order ∧ l = l0 ∧ c = c0) ∨
  (∃ pre post, order = pre ++ (l, c) :: post ∧ c0 < c ∧
     Forall (λ e, e.2 < c) pre ∧ Forall (λ e, e.2 ≤ c) post).
Proof.
  revert l0 c0. induction order as [|[l1 c1] order IH]; intros l0 c0 Hscan.
  - simpl in Hscan. injection Hscan as <- <-. left. split_and!; [constructor | done | done].
  - simpl in Hscan. destruct (c0 <? c1) eqn:Hlt.
    + apply Z.ltb_lt in Hlt.
      destruct (IH _ _ Hscan) as [(Hall & -> & ->) | (pre & post & -> & Hc & Hpre & Hpost)].
      * right. exists [], order. split_and!; [done | done | constructor | done].
      * right. exists ((l1, c1) :: pre), post. split_and!; [done | lia | | done].
        by constructor.
    + apply Z.ltb_ge in Hlt.
      destruct (IH _ _ Hscan) as [(Hall & -> & ->) | (pre & post & -> & Hc & Hpre & Hpost)].
      * left. split_and!; [by constructor | done | done].
      * right. exists ((l1, c1) :: pre), post. split_and!; [done | done | | done].
        constructor; [simpl; lia | done].
Qed.

Lemma rangeOrder_elem m order l c :
  rangeOrder m order → (l, c) ∈ order ↔ m !! l = Some c.
Proof. unfold rangeOrder. intros ->. apply elem_of_map_to_list. Qed.

Lemma rangeOrder_empty order : rangeOrder ∅ order → order = [].
Proof. unfold rangeOrder. rewrite map_to_list_empty. apply Permutation_nil_r. Qed.

(** What the two loops leave in [majorityLabel] and [maxCount] for a
    non-empty input. *)
Lemma scanMajority_tally annotations order l c :
  annotations ≠ [] → len annotations ≤ maxInt →
  rangeOrder (tally annotations).2 order →
  scanMajority order = (l, c) →
  c = countLabel l annotations ∧ 0 < c ∧
  (∀ l', countLabel l' annotations ≤ c) ∧
  ∃ pre post, order = pre ++ (l, c) :: post ∧ Forall (λ e, e.2 < c) pre.
Proof.
  intros Hne Hlen Horder Hscan.
  assert (∀ l' c', (l', c') ∈ order ↔ c' = countLabel l' annotations ∧ c' ≠ 0) as Hentries.
  { intros l' c'. rewrite (rangeOrder_elem _ _ _ _ Horder), tally_lookup by done.
    destruct (decide (countLabel l' annotations = 0)) as [Hz | Hz].
    - split; [done | intros [-> ?]; done].
    - split; [intros [= <-]; done | intros [-> _]; done]. }
  destruct (scan_first_max _ _ _ _ _ Hscan)
    as [(Hall & -> & ->) | (pre & post & -> & Hc & Hpre & Hpost)].
  - destruct annotations as [|ann annotations]; [done |].
    assert (0 < countLabel (Label ann) (ann :: annotations)) as Hpos.
    { apply countLabel_pos. rewrite fmap_cons. apply list_elem_of_here. }
    assert ((Label ann, countLabel (Label ann) (ann :: annotations)) ∈ order) as Hin.
    { apply Hentries. split; [done | lia]. }
    rewrite Forall_forall in Hall. apply Hall in Hin. simpl in Hin. lia.
  - assert (c = countLabel l annotations ∧ c ≠ 0) as [Hcl Hc0].
    { apply Hentries. rewrite elem_of_app. right. apply list_elem_of_here. }
    split; [done |]. split; [lia |]. split; [| by exists pre, post].
    intros l'. destruct (decide (countLabel l' annotations = 0)) as [-> | Hnz]; [lia |].
    assert ((l', countLabel l' annotations) ∈ pre ++ (l, c) :: post) as Hin.
    { apply Hentries. by split. }
    rewrite elem_of_app, elem_of_cons in Hin.
    rewrite Forall_forall in Hpre. rewrite Forall_forall in Hpost.
    destruct Hin as [Hin%Hpre | [Heq | Hin%Hpost]]; simpl in *; [lia | | lia].
    injection Heq as _ ->. lia.
Qed.

Lemma scanMajority_empty order :
  rangeOrder (tally []).2 order → scanMajority order = ("", 0).
Proof. intros Horder. by rewrite (rangeOrder_empty _ Horder). Qed.

(** The fields of the result, read off the definition. *)
Lemma computeAgreement_fields threshold visit conversationID annotationType annotations :
  let r := computeAgreement threshold visit conversationID annotationType annotations in
  let order := visit (tally annotations).2 in
  aaConversationID r = conversationID ∧ aaAnnotationType r = annotationType ∧
  Annotators r = AnnotatorID <$> annotations ∧
  MajorityLabel r = (scanMajority order).1 ∧
  AgreementScore r =
    (if 1 <? len annotations
     then PrimFloat.div (float64_of_int (scanMajority order).2) (float64_of_int (len annotations))
     else 1%float) ∧
  NeedsTiebreaker r = PrimFloat.ltb (AgreementScore r) threshold ∧
  IndividualAnnotations r = annotations.
Proof.
  unfold computeAgreement. rewrite <- tally_annotators.
  destruct (tally annotations) as [annotators labelCounts]. simpl.
  destruct (scanMajority (visit labelCounts)) as [majorityLabel maxCount]. simpl. done.
Qed.

Lemma firstEncountered_spec all rest best bestCount :
  let r := firstEncountered all rest best bestCount in
  (r = best ∧ Forall (λ ann, countLabel (Label ann) all ≤ bestCount) rest) ∨
  (r ∈ Label <$> rest ∧ bestCount < countLabel r all ∧
   Forall (λ ann, countLabel (Label ann) all ≤ countLabel r all) rest).
Proof.
  revert best bestCount. induction rest as [|ann rest IH]; intros best bestCount; simpl.
  - left. by split.
  - destruct (bestCount <? countLabel (Label ann) all) eqn:Hlt.
    + apply Z.ltb_lt in Hlt. right.
      destruct (IH (Label ann) (countLabel (Label ann) all)) as [[-> Hall] | (Hin & Hc & Hall)].
      * split_and!; [apply list_elem_of_here | done | by constructor].
      * split_and!; [by apply list_elem_of_further | lia | constructor; [lia | done]].
    + apply Z.ltb_ge in Hlt.
      destruct (IH best bestCount) as [[-> Hall] | (Hin & Hc & Hall)].
      * left. split; [done | by constructor].
      * right. split_and!; [by apply list_elem_of_further | done | constructor; [lia | done]].
Qed.

Lemma firstEncounteredMajority_most annotations :
  annotations ≠ [] →
  firstEncounteredMajority annotations ∈ Label <$> annotations ∧
  ∀ l, countLabel l annotations ≤
       countLabel (firstEncounteredMajority annotations) annotations.
Proof.
  intros Hne. unfold firstEncounteredMajority.
  destruct (firstEncountered_spec annotations annotations "" 0) as [[_ Hall] | (Hin & Hc & Hall)].
  - destruct annotations as [|ann annotations]; [done |].
    apply Forall_cons in Hall as [Hann _].
    assert (0 < countLabel (Label ann) (ann :: annotations)); [| lia].
    apply countLabel_pos. rewrite fmap_cons. apply list_elem_of_here.
  - split; [done |]. intros l.
    destruct (decide (l ∈ Label <$> annotations)) as [Hl | Hl].
    + apply list_elem_of_fmap in Hl as (ann & -> & Hann).
      rewrite Forall_forall in Hall. by apply Hall.
    + destruct (decide (0 < countLabel l annotations)) as [Hpos%countLabel_pos | Hpos];
        [done | lia].
Qed.

(** C1, as amended: for a non-empty input the majority label is a label of
    the input with the highest count (no label occurs more often); it is the
    first entry with that count in the order in which Go's [range] visits the
    map [labelCounts], whatever that order is; and it is the first-encountered
    label of the input whenever no two labels share the highest count. *)
Theorem C1_majority_label_has_highest_count
    threshold visit conversationID annotationType annotations :
  annotations ≠ [] → len annotations ≤ maxInt → mapRange visit →
  let r := computeAgreement threshold visit conversationID annotationType annotations in
  MajorityLabel r ∈ Label <$> annotations ∧
  (∀ l, countLabel l annotations ≤ countLabel (MajorityLabel r) annotations) ∧
  (∃ pre post,
     visit (tally annotations).2 =
       pre ++ (MajorityLabel r, countLabel (MajorityLabel r) annotations) :: post ∧
     Forall (λ e, e.2 < countLabel (MajorityLabel r) annotations) pre) ∧
  (¬ tiedForMost annotations → MajorityLabel r = firstEncounteredMajority annotations).
Proof.
  intros Hne Hlen Hvisit r.
  destruct (computeAgreement_fields threshold visit conversationID annotationType annotations)
    as (_ & _ & _ & Hlabel & _). fold r in Hlabel.
  destruct (scanMajority (visit (tally annotations).2)) as [l c] eqn:Hscan.
  simpl in Hlabel. rewrite Hlabel.
  destruct (scanMajority_tally _ _ _ _ Hne Hlen (Hvisit _) Hscan)
    as (-> & Hpos & Hmax & Hfirst).
  assert (l ∈ Label <$> annotations) as Hin by by apply countLabel_pos.
  split_and!; [done | done | done |].
  intros Hnotie. destruct (firstEncounteredMajority_most _ Hne) as [Hin' Hmax'].
  destruct (decide (l = firstEncounteredMajority annotations)) as [Heq | Hneq]; [done |].
  exfalso. apply Hnotie. exists l, (firstEncounteredMajority annotations).
  split_and!; [done | done | done | | done].
  pose proof (Hmax (firstEncounteredMajority annotations)). pose proof (Hmax' l). lia.
Qed.

(** C3: the agreement score is [count(majority_label) / total] (a float64
    division) when there is more than one annotation and 1.0 otherwise;
    [needs_tiebreaker] is the comparison [agreement_score < threshold]; and
    the labels good, good, bad give majority "good", score 2/3 and, at
    threshold 0.8, [needs_tiebreaker = true]. *)
Theorem C3_agreement_score_and_tiebreaker
    threshold visit conversationID annotationType annotations :
  len annotations ≤ maxInt → mapRange visit →
  let r := computeAgreement threshold visit conversationID annotationType annotations in
  (1 < len annotations →
   AgreementScore r =
   PrimFloat.div (float64_of_int (countLabel (MajorityLabel r) annotations))
                 (float64_of_int (len annotations))) ∧
  (len annotations ≤ 1 → AgreementScore r = 1%float) ∧
  (NeedsTiebreaker r = true ↔ PrimFloat.ltb (AgreementScore r) threshold = true) ∧
  (∀ a1 a2 a3,
     annotations = [a1; a2; a3] →
     Label a1 = "good" → Label a2 = "good" → Label a3 = "bad" →
     MajorityLabel r = "good" ∧
     AgreementScore r = PrimFloat.div 2%float 3%float ∧
     (threshold = 0.8%float → NeedsTiebreaker r = true)).
Proof.
  intros Hlen Hvisit r.
  destruct (computeAgreement_fields threshold visit conversationID annotationType annotations)
    as (_ & _ & _ & Hlabel & Hscore & Hneeds & _).
  fold r in Hlabel, Hscore, Hneeds.
  assert (1 < len annotations →
          AgreementScore r =
          PrimFloat.div (float64_of_int (countLabel (MajorityLabel r) annotations))
                        (float64_of_int (len annotations)) ∧
          ∀ l, countLabel l annotations ≤ countLabel (MajorityLabel r) annotations) as Hmany.
  { intros Hgt.
    assert (annotations ≠ []) as Hne by (intros ->; unfold len in Hgt; simpl in Hgt; lia).
    destruct (scanMajority (visit (tally annotations).2)) as [l c] eqn:Hscan.
    simpl in Hlabel, Hscore.
    destruct (scanMajority_tally _ _ _ _ Hne Hlen (Hvisit _) Hscan) as (-> & _ & Hmax & _).
    rewrite Hlabel. split; [| done].
    rewrite Hscore. by rewrite (proj2 (Z.ltb_lt _ _) Hgt). }
  split_and!.
  - intros Hgt. by apply Hmany.
  - intros Hle. rewrite Hscore. by rewrite (proj2 (Z.ltb_ge _ _) Hle).
  - by rewrite Hneeds.
  - intros a1 a2 a3 -> Ha1 Ha2 Ha3.
    destruct Hmany as [Hs Hmax]; [done |].
    assert (∀ l, countLabel l [a1; a2; a3] =
                 (if decide ("good" = l) then 2 else 0) + (if decide ("bad" = l) then 1 else 0))
      as Hcount.
    { intros l. unfold countLabel. rewrite !filter_cons, filter_nil, Ha1, Ha2, Ha3.
      by repeat case_decide. }
    assert (MajorityLabel r = "good") as Hgood.
    { pose proof (Hmax "good") as Hm. rewrite !Hcount in Hm.
      destruct (decide ("good" = MajorityLabel r)) as [<- | ?]; [done |].
      repeat case_decide; done || lia. }
    split; [done |]. rewrite Hgood, Hcount in Hs. simpl in Hs.
    split; [by rewrite Hs |].
    intros ->. by rewrite Hneeds, Hs.
Qed.

(** C6, as amended: for zero annotations the majority label is empty, the
    agreement score is 1.0 and [needs_tiebreaker] is the comparison
    [1.0 < threshold]: false for every threshold that is not above 1.0 (the
    default 0.8 among them), true for a threshold above 1.0. *)
Theorem C6_zero_annotations threshold visit conversationID annotationType :
  mapRange visit →
  let r := computeAgreement threshold visit conversationID annotationType [] in
  MajorityLabel r = "" ∧ AgreementScore r = 1%float ∧
  NeedsTiebreaker r = PrimFloat.ltb 1%float threshold ∧
  (threshold = 0.8%float → NeedsTiebreaker r = false).
Proof.
  intros Hvisit r.
  destruct (computeAgreement_fields threshold visit conversationID annotationType [])
    as (_ & _ & _ & Hlabel & Hscore & Hneeds & _).
  fold r in Hlabel, Hscore, Hneeds.
  rewrite (scanMajority_empty _ (Hvisit _)) in Hlabel. simpl in Hscore.
  rewrite Hscore in Hneeds. split_and!; [done | done | done |].
  intros ->. by rewrite Hneeds.
Qed.

(** ** Properties of the routing computation *)

Lemma countCritical_foldl issues c0 :
  0 ≤ c0 → c0 + len issues ≤ maxInt →
  foldl (λ criticalCount issue,
           if decide (Severity issue = "critical")
           then wrap64 (criticalCount + 1) else criticalCount)
        c0 issues
  = c0 + len (filter (λ issue, Severity issue = "critical") issues).
Proof.
  revert c0. induction issues as [|issue issues IH]; intros c0 Hc0 Hlen.
  - unfold len. simpl. lia.
  - change (issue :: issues) with ([issue] ++ issues) in Hlen. rewrite len_app in Hlen.
    assert (len [issue] = 1) as Hone by done. rewrite Hone in Hlen.
    pose proof (len_nonneg issues) as Hnn.
    simpl. rewrite filter_cons. case_decide as Hcrit.
    + rewrite wrap64_id by (unfold maxInt in *; lia). rewrite IH by lia.
      change (issue :: filter (λ issue, Severity issue = "critical") issues)
        with ([issue] ++ filter (λ issue, Severity issue = "critical") issues).
      rewrite len_app, Hone. lia.
    + by rewrite IH by lia.
Qed.

(** The counter does not wrap: it counts the critical issues. *)
Lemma countCritical_spec issues :
  len issues ≤ maxInt →
  countCritical issues = len (filter (λ issue, Severity issue = "critical") issues).
Proof. intros Hlen. unfold countCritical. rewrite countCritical_foldl; lia. Qed.

Lemma countCritical_pos issues :
  len issues ≤ maxInt →
  0 < countCritical issues ↔ ∃ issue, issue ∈ issues ∧ Severity issue = "critical".
Proof.
  intros Hlen. rewrite countCritical_spec by done. unfold len.
  destruct (filter (λ issue, Severity issue = "critical") issues) as [|issue l] eqn:Hf.
  - simpl. split; [lia |]. intros (issue & Hin & Hcrit).
    assert (issue ∈ filter (λ issue, Severity issue = "critical") issues) as Hin'
      by by apply list_elem_of_filter.
    rewrite Hf in Hin'. by apply elem_of_nil in Hin'.
  - simpl. split; [| lia]. intros _. exists issue.
    assert (issue ∈ filter (λ issue, Severity issue = "critical") issues) as Hin
      by (rewrite Hf; apply list_elem_of_here).
    apply list_elem_of_filter in Hin as [? ?]. by split.
Qed.

Lemma exists_elem_of_cons {A} (P : A → Prop) (a : A) (l : list A) :
  (∃ x, x ∈ a :: l ∧ P x) ↔ P a ∨ ∃ x, x ∈ l ∧ P x.
Proof.
  split.
  - intros (x & [-> | Hin]%elem_of_cons & HP); [by left | right; by exists x].
  - intros [HP | (x & Hin & HP)].
    + exists a. split; [apply list_elem_of_here | done].
    + exists x. split; [by apply list_elem_of_further | done].
Qed.

Lemma exists_elem_of_nil {A} (P : A → Prop) : (∃ x, x ∈ @nil A ∧ P x) ↔ False.
Proof. split; [| done]. intros (x & Hin & _). by apply elem_of_nil in Hin. Qed.

Lemma suggestStep_elem suggestedTypes issue x :
  x ∈ suggestStep suggestedTypes issue ↔
  x ∈ suggestedTypes ∨
  (x = "tool_accuracy" ∧
   (issueType issue = "tool" ∨ issueType issue = "tool_execution_failure")) ∨
  (x = "coherence" ∧
   (issueType issue = "context_loss" ∨ issueType issue = "coherence")).
Proof.
  unfold suggestStep.
  repeat case_decide; rewrite ?elem_of_app, ?list_elem_of_singleton; tauto.
Qed.

(** What the loop over the issues appends to [suggestedTypes]. *)
Lemma suggestTypes_foldl issues suggestedTypes x :
  x ∈ foldl suggestStep suggestedTypes issues ↔
  x ∈ suggestedTypes ∨
  (x = "tool_accuracy" ∧
   ∃ issue, issue ∈ issues ∧
     (issueType issue = "tool" ∨ issueType issue = "tool_execution_failure")) ∨
  (x = "coherence" ∧
   ∃ issue, issue ∈ issues ∧
     (issueType issue = "context_loss" ∨ issueType issue = "coherence")).
Proof.
  revert suggestedTypes. induction issues as [|issue issues IH]; intros suggestedTypes.
  - simpl. rewrite !exists_elem_of_nil. tauto.
  - simpl. rewrite IH, suggestStep_elem, !exists_elem_of_cons. tauto.
Qed.

(** C4: a score below 0.4 and a critical issue each force human review at
    priority "high" with their reason recorded; both together still give
    exactly "high"; [auto_label] is the negation of [needs_human_review]. *)
Theorem C4_routing_triggers conversationID eval :
  len (unmarshalIssues (IssuesDetected eval)) ≤ maxInt →
  let issues := unmarshalIssues (IssuesDetected eval) in
  let d := routeEvaluation conversationID eval in
  (PrimFloat.ltb (OverallScore eval) 0.4%float = true →
   NeedsHumanReview d = true ∧ Priority d = "high" ∧
   "Low quality score" ∈ RoutingReason d) ∧
  ((∃ issue, issue ∈ issues ∧ Severity issue = "critical") →
   NeedsHumanReview d = true ∧ Priority d = "high" ∧
   "Critical issues detected" ∈ RoutingReason d) ∧
  (PrimFloat.ltb (OverallScore eval) 0.4%float = true →
   (∃ issue, issue ∈ issues ∧ Severity issue = "critical") →
   Priority d = "high" ∧
   RoutingReason d = ["Low quality score"; "Critical issues detected"]) ∧
  AutoLabel d = negb (NeedsHumanReview d).
Proof.
  intros Hlen issues d. subst d. unfold routeEvaluation. fold issues.
  pose proof (countCritical_pos issues Hlen) as Hcrit.
  destruct (PrimFloat.ltb (OverallScore eval) 0.4%float) eqn:Hlow;
    destruct (0 <? countCritical issues) eqn:Hpos; simpl.
  - split_and!; [| | done | done].
    + intros _. split_and!; [done | done |]. rewrite elem_of_cons. by left.
    + intros _. split_and!; [done | done |]. rewrite !elem_of_cons. right. by left.
  - apply Z.ltb_ge in Hpos. split_and!; [| | | done].
    + intros _. split_and!; [done | done |]. rewrite elem_of_cons. by left.
    + intros Hex%Hcrit. lia.
    + intros _ Hex%Hcrit. lia.
  - split_and!; [done | | done | done].
    intros _. split_and!; [done | done |]. rewrite elem_of_cons. by left.
  - apply Z.ltb_ge in Hpos. split_and!; [done | | done | done].
    intros Hex%Hcrit. lia.
Qed.

(** C5: the suggested annotation types always contain "general_quality";
    "tool_accuracy" exactly when some issue has type "tool" or
    "tool_execution_failure"; "coherence" exactly when some issue has type
    "context_loss" or "coherence"; and a score of 0.9 with no issue gives no
    review, priority "low", the single type "general_quality" and
    [auto_label = true]. *)
Theorem C5_suggested_annotation_types conversationID eval :
  let issues := unmarshalIssues (IssuesDetected eval) in
  let d := routeEvaluation conversationID eval in
  "general_quality" ∈ SuggestedAnnotationTypes d ∧
  ("tool_accuracy" ∈ SuggestedAnnotationTypes d ↔
   ∃ issue, issue ∈ issues ∧
     (issueType issue = "tool" ∨ issueType issue = "tool_execution_failure")) ∧
  ("coherence" ∈ SuggestedAnnotationTypes d ↔
   ∃ issue, issue ∈ issues ∧
     (issueType issue = "context_loss" ∨ issueType issue = "coherence")) ∧
  (OverallScore eval = 0.9%float → issues = [] →
   NeedsHumanReview d = false ∧ Priority d = "low" ∧
   SuggestedAnnotationTypes d = ["general_quality"] ∧ AutoLabel d = true).
Proof.
  intros issues d.
  assert (SuggestedAnnotationTypes d = suggestTypes issues) as Hs.
  { subst d. unfold routeEvaluation. fold issues.
    by destruct (PrimFloat.ltb _ _), (0 <? _). }
  rewrite Hs. unfold suggestTypes. split_and!.
  - apply suggestTypes_foldl. left. apply list_elem_of_here.
  - rewrite suggestTypes_foldl, list_elem_of_singleton.
    split; [intros [? | [[_ ?] | [? _]]]; done | intros ?; right; left; by split].
  - rewrite suggestTypes_foldl, list_elem_of_singleton.
    split; [intros [? | [[? _] | [_ ?]]]; done | intros ?; right; right; by split].
  - intros Hscore Hnone. subst d. unfold routeEvaluation. fold issues.
    rewrite Hscore, Hnone. done.
Qed.

(** ** Recomputation *)

Lemma computeAgreement_order threshold visit1 visit2 conversationID annotationType annotations :
  scanMajority (visit1 (tally annotations).2) = scanMajority (visit2 (tally annotations).2) →
  computeAgreement threshold visit1 conversationID annotationType annotations =
  computeAgreement threshold visit2 conversationID annotationType annotations.
Proof.
  unfold computeAgreement. destruct (tally annotations) as [annotators labelCounts].
  simpl. by intros ->.
Qed.

(** Two visits of the same [labelCounts] end with the same [maxCount]. *)
Lemma scanMajority_maxCount annotations order1 order2 :
  len annotations ≤ maxInt →
  rangeOrder (tally annotations).2 order1 →
  rangeOrder (tally annotations).2 order2 →
  (scanMajority order1).2 = (scanMajority order2).2 ∧
  (¬ tiedForMost annotations → scanMajority order1 = scanMajority order2).
Proof.
  intros Hlen H1 H2. destruct (decide (annotations = [])) as [-> | Hne].
  - rewrite (scanMajority_empty _ H1), (scanMajority_empty _ H2). done.
  - destruct (scanMajority order1) as [l1 c1] eqn:Hs1.
    destruct (scanMajority order2) as [l2 c2] eqn:Hs2.
    destruct (scanMajority_tally _ _ _ _ Hne Hlen H1 Hs1) as (-> & Hpos1 & Hmax1 & _).
    destruct (scanMajority_tally _ _ _ _ Hne Hlen H2 Hs2) as (-> & Hpos2 & Hmax2 & _).
    pose proof (Hmax1 l2). pose proof (Hmax2 l1). simpl.
    split; [lia |]. intros Hnotie.
    destruct (decide (l1 = l2)) as [-> | Hneq]; [done |].
    exfalso. apply Hnotie. exists l1, l2.
    split_and!; [done | by apply countLabel_pos | by apply countLabel_pos | lia | done].
Qed.

(** The routing decision reads the score and, of the parsed issues, their
    types and severities only. *)
Lemma countCritical_severities issues1 issues2 :
  Severity <$> issues1 = Severity <$> issues2 →
  countCritical issues1 = countCritical issues2.
Proof.
  intros Heq.
  pose (step := λ (criticalCount : Z) (severity : string),
      if decide (severity = "critical") then wrap64 (criticalCount + 1) else criticalCount).
  assert (∀ issues, countCritical issues = foldl step 0 (Severity <$> issues)) as Hfold
    by (intros issues; by rewrite foldl_fmap).
  by rewrite !Hfold, Heq.
Qed.

Lemma suggestTypes_types issues1 issues2 :
  issueType <$> issues1 = issueType <$> issues2 →
  suggestTypes issues1 = suggestTypes issues2.
Proof.
  intros Heq.
  pose (step := λ (suggestedTypes : list string) (ty : string),
      let suggestedTypes :=
        if decide (ty = "tool" ∨ ty = "tool_execution_failure")
        then suggestedTypes ++ ["tool_accuracy"] else suggestedTypes in
      if decide (ty = "context_loss" ∨ ty = "coherence")
      then suggestedTypes ++ ["coherence"] else suggestedTypes).
  assert (∀ issues, suggestTypes issues = foldl step ["general_quality"] (issueType <$> issues))
    as Hfold by (intros issues; by rewrite foldl_fmap).
  by rewrite !Hfold, Heq.
Qed.

(** C2, as amended: recomputing the routing decision gives the same decision
    (it is a function of the conversation id, the score and the types and
    severities of the parsed issues), and recomputing the agreement gives
    the same annotators, score, tiebreaker flag and annotations; the
    majority label is the same too unless two labels tie for the highest
    count, in which case it follows the order of Go's map iteration. *)
Theorem C2_recomputation
    threshold conversationID annotationType annotations visit1 visit2 eval1 eval2 :
  len annotations ≤ maxInt → mapRange visit1 → mapRange visit2 →
  let r1 := computeAgreement threshold visit1 conversationID annotationType annotations in
  let r2 := computeAgreement threshold visit2 conversationID annotationType annotations in
  (aaConversationID r1 = aaConversationID r2 ∧
   aaAnnotationType r1 = aaAnnotationType r2 ∧
   Annotators r1 = Annotators r2 ∧
   AgreementScore r1 = AgreementScore r2 ∧
   NeedsTiebreaker r1 = NeedsTiebreaker r2 ∧
   IndividualAnnotations r1 = IndividualAnnotations r2) ∧
  (¬ tiedForMost annotations → r1 = r2) ∧
  (OverallScore eval1 = OverallScore eval2 →
   issueType <$> unmarshalIssues (IssuesDetected eval1) =
     issueType <$> unmarshalIssues (IssuesDetected eval2) →
   Severity <$> unmarshalIssues (IssuesDetected eval1) =
     Severity <$> unmarshalIssues (IssuesDetected eval2) →
   routeEvaluation conversationID eval1 = routeEvaluation conversationID eval2).
Proof.
  intros Hlen H1 H2 r1 r2.
  destruct (scanMajority_maxCount _ _ _ Hlen (H1 _) (H2 _)) as [Hmax Hnotie].
  destruct (computeAgreement_fields threshold visit1 conversationID annotationType annotations)
    as (Hc1 & Ht1 & Ha1 & _ & Hs1 & Hn1 & Hi1).
  destruct (computeAgreement_fields threshold visit2 conversationID annotationType annotations)
    as (Hc2 & Ht2 & Ha2 & _ & Hs2 & Hn2 & Hi2).
  fold r1 in Hc1, Ht1, Ha1, Hs1, Hn1, Hi1. fold r2 in Hc2, Ht2, Ha2, Hs2, Hn2, Hi2.
  assert (AgreementScore r1 = AgreementScore r2) as Hscore
    by by rewrite Hs1, Hs2, Hmax.
  split_and!.
  - by rewrite Hc1, Hc2.
  - by rewrite Ht1, Ht2.
  - by rewrite Ha1, Ha2.
  - done.
  - by rewrite Hn1, Hn2, Hscore.
  - by rewrite Hi1, Hi2.
  - intros Hno. apply computeAgreement_order. by apply Hnotie.
  - intros Hscore' Htypes Hsev. unfold routeEvaluation.
    by rewrite Hscore', (countCritical_severities _ _ Hsev), (suggestTypes_types _ _ Htypes).
Qed.

(** ** Properties of the queue *)

(** With a type error kept, decoding ends in an error. *)
Lemma decodeMembers_saved t e members t' : decodeMembers t (Some e) members ≠ Ok t'.
Proof.
  revert t e. induction members as [|member members IH]; intros t e; [done |].
  simpl. destruct (decodeMember t member) as [t1 | e1]; [apply IH |].
  destruct (equalFold _ _); [done | apply IH].
Qed.

Lemma decodeMembers_app t members1 members2 t' :
  decodeMembers t None members1 = Ok t' →
  decodeMembers t None (members1 ++ members2) = decodeMembers t' None members2.
Proof.
  revert t. induction members1 as [|member members1 IH]; intros t; [by intros [= ->] |].
  simpl. destruct (decodeMember t member) as [t1 | e1]; [apply IH |].
  destruct (equalFold _ _); [done |]. intros Hsaved. by apply decodeMembers_saved in Hsaved.
Qed.

Lemma mapM_result_cons {A B} (f : A → result B) (a : A) (s : list A) :
  mapM f (a :: s) = (b ← f a; bs ← mapM f s; Ok (b :: bs)).
Proof. done. Qed.

Lemma decodeStrings_encodeStrings l :
  Forall validText l → decodeStrings (encodeStrings l) = Ok (Some l).
Proof.
  intros Hvalid.
  assert (mapM (λ e, decodeString "evaluator_types" e "") (encodeString <$> l) = Ok l) as Hl.
  { induction Hvalid as [|s l Hs Hl IH]; [done |].
    rewrite fmap_cons, mapM_result_cons, IH. simpl.
    unfold validText in Hs. by rewrite !Hs. }
  unfold decodeStrings, encodeStrings. by rewrite Hl.
Qed.

(** Storing the members of an object one by one. *)
Lemma foldl_insert_list_to_map (entries : list (string * Value)) (base : gmap string Value) :
  NoDup entries.*1 →
  foldl (λ m e, <[e.1 := e.2]> m) base entries = list_to_map entries ∪ base.
Proof.
  revert base. induction entries as [|[k v] entries IH]; intros base Hnd.
  - simpl. by rewrite (left_id_L ∅ (∪)).
  - simpl in *. apply NoDup_cons in Hnd as [Hk Hnd]. rewrite IH by done.
    rewrite <- insert_union_l, <- insert_union_r; [done |].
    by apply not_elem_of_list_to_map_1.
Qed.

Lemma encodeMap_decodeMap m :
  map_Forall (λ k v, validText k ∧ valueSurvives v) m →
  ∃ members, encodeMap m = Ok (JObject members) ∧
             decodeMap (JObject members) None = Ok (Some m).
Proof.
  intros Hm. unfold encodeMap.
  assert (sortedEntries m ≡ₚ map_to_list m) as Hperm
    by apply merge_sort_Permutation.
  assert (Forall (λ e, validText e.1 ∧ valueSurvives e.2) (sortedEntries m)) as Hall.
  { apply Forall_forall. intros [k v] Hin. rewrite Hperm in Hin.
    apply elem_of_map_to_list in Hin. by apply (Hm k v). }
  assert (∃ members, mapM encodeMember (sortedEntries m) = Ok members ∧
            ∀ base : gmap string Value,
              foldl (λ acc member, <[toValidUTF8 member.1 := unmarshalValue member.2]> acc)
                    base members
              = foldl (λ acc e, <[e.1 := e.2]> acc) base (sortedEntries m))
    as (members & Henc & Hdec).
  { clear Hperm. induction Hall as [|[k v] entries [Hk (j & Hj & Hv)] Hrest IH].
    - exists []. by split.
    - destruct IH as (members & Henc & Hdec). simpl in Hk, Hj, Hv.
      exists ((k, j) :: members). split.
      + rewrite mapM_result_cons, Henc. unfold encodeMember at 1. simpl. rewrite Hj. simpl.
        unfold validText in Hk. by rewrite !Hk.
      + intros base. simpl. unfold validText in Hk. rewrite !Hk, Hv. apply Hdec. }
  exists members. rewrite Henc. split; [done |].
  unfold decodeMap. simpl. rewrite Hdec.
  rewrite foldl_insert_list_to_map.
  - rewrite (right_id_L ∅ (∪)).
    rewrite (list_to_map_proper _ (map_to_list m)), list_to_map_to_list; [done | | done].
    rewrite Hperm. apply NoDup_fst_map_to_list.
  - rewrite Hperm. apply NoDup_fst_map_to_list.
Qed.

(** The document [json.Marshal] writes for a task is decoded, into a zero
    [Task], as the task without its empty slice and empty map. *)
Lemma marshalTask_unmarshalTask t :
  fieldsSurvive t →
  ∃ data, marshalTask t = Ok data ∧ unmarshalTask data zeroTask = Ok (omitEmpty t).
Proof.
  destruct t as [id ty cid ets pl created]. unfold fieldsSurvive, omitEmpty. simpl.
  intros (Hid & Hty & Hcid & Hets & Hpl & (jt & Hjt & Hut)).
  unfold validText in Hid, Hty, Hcid.
  pose proof (decodeStrings_encodeStrings _ Hets) as Hstrings.
  unfold marshalTask. simpl.
  assert (∃ payload,
            match pl with
            | Some m =>
                if decide (size m = 0%nat) then Ok []
                else j ← encodeMap m; Ok [("payload", j)]
            | None => Ok []
            end = Ok payload ∧
            ∀ t0, Payload t0 = None →
              decodeMembers t0 None payload =
              Ok {| ID := ID t0; taskType := taskType t0;
                    taskConversationID := taskConversationID t0;
                    EvaluatorTypes := EvaluatorTypes t0;
                    Payload := match pl with
                               | Some m => if decide (size m = 0%nat) then None else Some m
                               | None => None
                               end;
                    CreatedAt := CreatedAt t0 |})
    as (payload & -> & Hpayload).
  { destruct pl as [m|]; [destruct (decide (size m = 0%nat)) |].
    - exists []. split; [done |]. intros [] Hp. simpl in *. by rewrite Hp.
    - destruct (encodeMap_decodeMap m Hpl) as (members & -> & Hdec).
      unfold decodeMap in Hdec. simpl in Hdec. injection Hdec as Hdec.
      eexists. split; [done |]. intros [] Hp. simpl in Hp. rewrite Hp. simpl.
      by rewrite Hdec.
    - exists []. split; [done |]. intros [] Hp. simpl in *. by rewrite Hp. }
  simpl. rewrite Hjt. simpl. eexists. split; [reflexivity |].
  unfold unmarshalTask.
  simpl. rewrite !Hid, !Hty, !Hcid.
  destruct ets as [[|e l]|].
  - simpl. erewrite decodeMembers_app; [| by apply Hpayload]. simpl. by rewrite Hut.
  - change (default [] (Some (e :: l))) with (e :: l) in Hstrings.
    remember (encodeStrings (e :: l)) as j eqn:Hj.
    simpl. rewrite Hstrings. simpl.
    erewrite decodeMembers_app; [| by apply Hpayload]. simpl. by rewrite Hut.
  - simpl. erewrite decodeMembers_app; [| by apply Hpayload]. simpl. by rewrite Hut.
Qed.

Lemma omitEmpty_id t :
  EvaluatorTypes t ≠ Some [] → Payload t ≠ Some ∅ → omitEmpty t = t.
Proof.
  destruct t as [id ty cid ets pl created]. unfold omitEmpty. simpl. intros Hets Hpl.
  f_equal.
  - by destruct ets as [[|e l]|].
  - destruct pl as [m|]; [| done]. case_decide as Hsize; [| done].
    apply map_size_empty_iff in Hsize. by subst.
Qed.

(** The seconds go-redis sends are negative for a timeout of minus one
    second or less, and positive for a positive timeout. *)
Lemma quot_Second (dur : Z) :
  dur ÷ Second = if 0 <=? dur then dur / Second else - (- dur / Second).
Proof.
  unfold Second. destruct (0 <=? dur) eqn:Hsign.
  - apply Z.leb_le in Hsign. by apply Z.quot_div_nonneg.
  - apply Z.leb_gt in Hsign.
    rewrite <- (Z.opp_involutive dur) at 1. rewrite Z.quot_opp_l by done.
    rewrite Z.quot_div_nonneg by lia. done.
Qed.

Lemma formatSec_negative timeout : (formatSec timeout <? 0) = false ↔ - Second < timeout.
Proof.
  unfold formatSec. rewrite quot_Second, Z.ltb_ge. unfold Second.
  destruct (Z.ltb_spec 0 timeout); destruct (Z.ltb_spec timeout 1000000000);
    destruct (Z.leb_spec 0 timeout); simpl; try lia; Z.div_mod_to_equations; lia.
Qed.

Lemma formatSec_positive timeout : (0 <? formatSec timeout) = true ↔ 0 < timeout.
Proof.
  unfold formatSec. rewrite quot_Second, Z.ltb_lt. unfold Second.
  destruct (Z.ltb_spec 0 timeout); destruct (Z.ltb_spec timeout 1000000000);
    destruct (Z.leb_spec 0 timeout); simpl; try lia; Z.div_mod_to_equations; lia.
Qed.

(** A task pushed onto a queue that does not exist yet and popped again. *)
Lemma enqueue_dequeue queueName timeout t r :
  connected r = true → keyspace r !! queueName = None → fieldsSurvive t →
  - Second < timeout →
  ∃ r1, Enqueue queueName (Some t) r = (None, r1) ∧
        Dequeue queueName timeout r1 = Some ((Some (omitEmpty t), None), r).
Proof.
  intros Hup Hfresh Hfields Htimeout.
  destruct (marshalTask_unmarshalTask t Hfields) as (data & Hmarshal & Hunmarshal).
  destruct r as [up ks]. simpl in Hup, Hfresh. subst up.
  unfold Enqueue, marshalTaskPtr. rewrite Hmarshal. unfold RPush. simpl. rewrite Hfresh.
  eexists. split; [reflexivity |].
  unfold Dequeue, BLPop. simpl.
  rewrite (proj2 (formatSec_negative timeout) Htimeout).
  rewrite lookup_insert_eq, Hunmarshal.
  by rewrite delete_insert_id.
Qed.

(** C8, as amended: a task whose [evaluator_types] and [payload] are each nil
    or non-empty, and whose field values are ones their JSON encoding gives
    back (valid UTF-8 texts, a time and payload values that survive
    [encoding/json]), is returned unchanged by a dequeue after its enqueue on
    an otherwise untouched queue, which is left as it was, provided the
    timeout of the dequeue is above minus one second (go-redis sends a
    timeout of minus one second or less as a negative number of seconds,
    which the server refuses). *)
Theorem C8_enqueue_dequeue_roundtrip queueName timeout t r :
  connected r = true → keyspace r !! queueName = None →
  fieldsSurvive t →
  EvaluatorTypes t ≠ Some [] → Payload t ≠ Some ∅ →
  - Second < timeout →
  ∃ r1, Enqueue queueName (Some t) r = (None, r1) ∧
        Dequeue queueName timeout r1 = Some ((Some t, None), r).
Proof.
  intros Hup Hfresh Hfields Hets Hpl Htimeout.
  destruct (enqueue_dequeue queueName timeout t r Hup Hfresh Hfields Htimeout)
    as (r1 & Henq & Hdeq).
  exists r1. by rewrite (omitEmpty_id t Hets Hpl) in Hdeq.
Qed.

(** C9: [Get] on a key the store does not hold gets [redis.Nil] from the
    server and hands it to the caller as the nil error, with [dest] left as
    it was. *)
Theorem C9_get_missing_key key dest r :
  connected r = true → keyspace r !! key = None →
  RGet key r = ReplyNil ∧ Get key dest r = (None, dest).
Proof.
  intros Hup Hmissing. unfold Get, RGet. by rewrite Hup, Hmissing.
Qed.

(** An unreachable server is reported as an error, unlike a missing key. *)
Lemma Get_unreachable key dest r :
  connected r = false →
  Get key dest r = (Some ("failed to get value: " ++ errConnection)%string, dest).
Proof. intros Hdown. unfold Get, RGet. by rewrite Hdown. Qed.

(** ** Properties of the handlers *)

(** With an annotation type given and the annotations read, the agreement
    handler answers 200 with the agreement computed from them. *)
Lemma getAnnotatorAgreement_ok threshold visit conversationID annotationType s annotations :
  annotationType ≠ "" →
  repoGetAnnotationsForConversation conversationID annotationType (repo s) = Ok annotations →
  getAnnotatorAgreement threshold visit conversationID annotationType s =
  {| status := StatusOK;
     body := AgreementBody
               (computeAgreement threshold visit conversationID annotationType annotations) |}.
Proof.
  intros Hty Hread. unfold getAnnotatorAgreement.
  rewrite decide_False by done. by rewrite Hread.
Qed.

(** With a latest evaluation found, the routing handler answers 200 with the
    decision computed from it. *)
Lemma getRoutingDecision_ok conversationID s eval :
  repoGetLatestEvaluationForConversation conversationID (repo s) = Ok (Some eval) →
  getRoutingDecision conversationID s =
  {| status := StatusOK; body := RoutingBody (routeEvaluation conversationID eval) |}.
Proof. intros Hread. unfold getRoutingDecision. by rewrite Hread. Qed.

(** Ingestion answers the same, and leaves the repository the same, whatever
    the state of the queue. *)
Lemma createConversation_queue bound autoEvaluateQuery taskID now s queue' :
  let out := createConversation bound autoEvaluateQuery taskID now s in
  let out' := createConversation bound autoEvaluateQuery taskID now
                {| repo := repo s; queue := queue' |} in
  out.1 = out'.1 ∧ repo out.2 = repo out'.2.
Proof.
  unfold createConversation. simpl. destruct bound as [conv | e]; [| done].
  destruct (repoCreateConversation conv (repo s)) as [[created | e] repo']; done.
Qed.

(** C7: when enqueueing the task fails, a trigger request for an existing
    conversation is answered with the error "Failed to queue evaluation",
    while ingestion still answers 201 with the created conversation; the
    answer of ingestion and the repository it leaves do not depend on the
    queue at all. *)
Theorem C7_dispatch_failure
    req conv autoEvaluateQuery taskID now s stored created repo' e1 e2 :
  repoGetConversation (reqConversationID req) (repo s) = Ok (Some stored) →
  repoCreateConversation conv (repo s) = (Ok created, repo') →
  (Enqueue "evaluations" (Some (triggerTask req taskID now)) (queue s)).1 = Some e1 →
  (Enqueue "evaluations" (Some (ingestTask conv taskID now)) (queue s)).1 = Some e2 →
  (triggerEvaluation (Ok req) taskID now s).1 =
    {| status := StatusInternalServerError; body := ErrorBody "Failed to queue evaluation" |} ∧
  (createConversation (Ok conv) autoEvaluateQuery taskID now s).1 =
    {| status := StatusCreated; body := ConversationBody created |} ∧
  repo (createConversation (Ok conv) autoEvaluateQuery taskID now s).2 = repo' ∧
  ∀ bound queue',
    (createConversation bound autoEvaluateQuery taskID now s).1 =
    (createConversation bound autoEvaluateQuery taskID now
       {| repo := repo s; queue := queue' |}).1.
Proof.
  intros Hstored Hcreated Htrigger Hingest. split_and!.
  - unfold triggerEvaluation. rewrite Hstored.
    destruct (Enqueue "evaluations" (Some (triggerTask req taskID now)) (queue s))
      as [err queue'].
    simpl in Htrigger. by rewrite Htrigger.
  - unfold createConversation. by rewrite Hcreated.
  - unfold createConversation. by rewrite Hcreated.
  - intros bound queue'.
    by destruct (createConversation_queue bound autoEvaluateQuery taskID now s queue').
Qed.

(** C10: a trigger request for a conversation the repository does not hold
    is answered with 404 "Conversation not found", and nothing is enqueued:
    the server state, the "evaluations" queue in it, is as before. *)
Theorem C10_trigger_unknown_conversation req taskID now s :
  repoGetConversation (reqConversationID req) (repo s) = Ok None →
  let out := triggerEvaluation (Ok req) taskID now s in
  out.1 = {| status := StatusNotFound; body := ErrorBody "Conversation not found" |} ∧
  out.2 = s ∧
  keyspace (queue out.2) !! "evaluations" = keyspace (queue s) !! "evaluations" ∧
  QueueLength "evaluations" (queue out.2) = QueueLength "evaluations" (queue s).
Proof.
  intros Hmissing. unfold triggerEvaluation. rewrite Hmissing. done.
Qed.

(** ** The queue as a first-in first-out list *)

(** A successful [Enqueue] puts the document of the task behind the ones
    waiting. *)
Lemma Enqueue_ok queueName task r r' :
  Enqueue queueName task r = (None, r') →
  ∃ data, marshalTaskPtr task = Ok data ∧ connected r = true ∧
          (∀ d, keyspace r !! queueName ≠ Some (RString d)) ∧
          r' = {| connected := true;
                  keyspace := <[queueName := RList (pending queueName r ++ [data])]>
                                (keyspace r) |}.
Proof.
  unfold Enqueue, RPush, pending. destruct (marshalTaskPtr task) as [data | e]; [| done].
  destruct r as [[] ks]; simpl; [| done].
  destruct (ks !! queueName) as [[d | l] |] eqn:Hkey; simpl; [done | |].
  - intros [= <-]. exists data. split_and!; done.
  - intros [= <-]. exists data. split_and!; done.
Qed.

(** An [Enqueue] that returns an error has changed nothing. *)
Lemma Enqueue_err queueName task r e r' :
  Enqueue queueName task r = (Some e, r') → r' = r.
Proof.
  unfold Enqueue, RPush. destruct (marshalTaskPtr task) as [data | e']; [| by intros [= _ <-]].
  destruct r as [[] ks]; simpl; [| by intros [= _ <-]].
  destruct (ks !! queueName) as [[d | l] |]; simpl; [by intros [= _ <-] | done | done].
Qed.

(** [Dequeue] on a reachable server with a document waiting, with a
    timeout above minus one second: the head is taken off, decoded or not. *)
Lemma Dequeue_head queueName timeout r data rest :
  connected r = true → - Second < timeout →
  keyspace r !! queueName = Some (RList (data :: rest)) →
  Dequeue queueName timeout r =
  Some (match unmarshalTask data zeroTask with
        | Ok task => (Some task, None)
        | Err e => (None, Some ("failed to unmarshal task: " ++ e)%string)
        end,
        {| connected := true;
           keyspace := match rest with
                       | [] => delete queueName (keyspace r)
                       | _ => <[queueName := RList rest]> (keyspace r)
                       end |}).
Proof.
  intros Hup Htimeout Hkey. unfold Dequeue, BLPop.
  rewrite Hup, (proj2 (formatSec_negative timeout) Htimeout), Hkey.
  destruct rest as [|data' rest]; by destruct (unmarshalTask data zeroTask).
Qed.

(** [Dequeue] with a timeout of minus one second or less: the server
    refuses the command, whatever waits. *)
Lemma Dequeue_negative queueName timeout r :
  connected r = true → timeout ≤ - Second →
  Dequeue queueName timeout r
  = Some ((None, Some ("failed to dequeue task: " ++ errNegativeTimeout)%string), r).
Proof.
  intros Hup Htimeout. unfold Dequeue, BLPop. rewrite Hup.
  destruct (formatSec timeout <? 0) eqn:Hsec; [done |].
  apply formatSec_negative in Hsec. lia.
Qed.

(** [Dequeue] on a reachable server with nothing waiting under the key. *)
Lemma Dequeue_empty queueName timeout r :
  connected r = true → - Second < timeout →
  keyspace r !! queueName = None ∨ keyspace r !! queueName = Some (RList []) →
  Dequeue queueName timeout r =
  if 0 <? timeout then Some ((None, None), r)
  else if timeout =? 0 then None
  else Some ((None, Some ("failed to dequeue task: " ++ errReadTimeout)%string), r).
Proof.
  intros Hup Htimeout Hkey. unfold Dequeue, BLPop.
  rewrite Hup, (proj2 (formatSec_negative timeout) Htimeout).
  assert ((0 <? formatSec timeout) = (0 <? timeout)) as ->.
  { destruct (0 <? timeout) eqn:Hpos.
    - apply formatSec_positive. by apply Z.ltb_lt.
    - destruct (0 <? formatSec timeout) eqn:Hsec; [| done].
      apply formatSec_positive in Hsec. apply Z.ltb_ge in Hpos. lia. }
  destruct Hkey as [-> | ->]; destruct (0 <? timeout); try done;
    by destruct (timeout =? 0).
Qed.

(** [Dequeue] on a key that holds a string. *)
Lemma Dequeue_string queueName timeout r d :
  connected r = true → - Second < timeout →
  keyspace r !! queueName = Some (RString d) →
  Dequeue queueName timeout r
  = Some ((None, Some ("failed to dequeue task: " ++ errWrongType)%string), r).
Proof.
  intros Hup Htimeout Hkey. unfold Dequeue, BLPop.
  by rewrite Hup, (proj2 (formatSec_negative timeout) Htimeout), Hkey.
Qed.

(** [Dequeue] on an unreachable server. *)
Lemma Dequeue_unreachable queueName timeout r :
  connected r = false →
  Dequeue queueName timeout r
  = Some ((None, Some ("failed to dequeue task: " ++ errConnection)%string), r).
Proof. intros Hdown. unfold Dequeue, BLPop. by rewrite Hdown. Qed.

(** A [Dequeue] that returns has either left the server as it was, without
    a task, or taken the head off a list of waiting documents. *)
Lemma Dequeue_cases queueName timeout r out r' :
  Dequeue queueName timeout r = Some (out, r') →
  (r' = r ∧ out.1 = None) ∨
  (connected r = true ∧ - Second < timeout ∧
   ∃ data rest, keyspace r !! queueName = Some (RList (data :: rest))).
Proof.
  intros Hdeq. destruct (connected r) eqn:Hup.
  - destruct (decide (timeout ≤ - Second)) as [Hneg | Htimeout].
    + rewrite (Dequeue_negative _ _ _ Hup Hneg) in Hdeq. injection Hdeq as <- <-. by left.
    + apply Z.nle_gt in Htimeout.
      destruct (keyspace r !! queueName) as [[d | [|data rest]] |] eqn:Hkey.
      * rewrite (Dequeue_string _ _ _ d Hup Htimeout Hkey) in Hdeq.
        injection Hdeq as <- <-. by left.
      * rewrite (Dequeue_empty _ _ _ Hup Htimeout (or_intror Hkey)) in Hdeq.
        destruct (0 <? timeout); [injection Hdeq as <- <-; by left |].
        destruct (timeout =? 0); [done | injection Hdeq as <- <-; by left].
      * right. split_and!; [done | done |]. by exists data, rest.
      * rewrite (Dequeue_empty _ _ _ Hup Htimeout (or_introl Hkey)) in Hdeq.
        destruct (0 <? timeout); [injection Hdeq as <- <-; by left |].
        destruct (timeout =? 0); [done | injection Hdeq as <- <-; by left].
  - rewrite (Dequeue_unreachable _ _ _ Hup) in Hdeq. injection Hdeq as <- <-. by left.
Qed.

Lemma QueueLength_pending queueName r :
  connected r = true → (∀ d, keyspace r !! queueName ≠ Some (RString d)) →
  QueueLength queueName r = Ok (len (pending queueName r)).
Proof.
  intros Hup Hlist. unfold QueueLength, LLen, pending. rewrite Hup.
  destruct (keyspace r !! queueName) as [[d | l] |] eqn:Hkey; [| done | done].
  by destruct (Hlist d).
Qed.

Lemma Enqueue_withPending queueName t data ks l :
  marshalTask t = Ok data →
  Enqueue queueName (Some t) {| connected := true; keyspace := withPending ks queueName l |}
  = (None, {| connected := true; keyspace := withPending ks queueName (l ++ [data]) |}).
Proof.
  intros Hdata. unfold Enqueue, marshalTaskPtr, RPush. rewrite Hdata. simpl.
  destruct l as [|d l]; simpl.
  - by rewrite lookup_delete_eq, insert_delete_eq.
  - rewrite lookup_insert_eq. simpl. by rewrite insert_insert_eq.
Qed.

Lemma Dequeue_withPending queueName timeout data ks l :
  - Second < timeout →
  Dequeue queueName timeout
    {| connected := true; keyspace := withPending ks queueName (data :: l) |}
  = Some (match unmarshalTask data zeroTask with
          | Ok task => (Some task, None)
          | Err e => (None, Some ("failed to unmarshal task: " ++ e)%string)
          end,
          {| connected := true; keyspace := withPending ks queueName l |}).
Proof.
  intros Htimeout.
  rewrite (Dequeue_head queueName timeout _ data l);
    [| done | done | by simpl; rewrite lookup_insert_eq].
  simpl. destruct l as [|d l]; simpl; by rewrite ?delete_insert_eq, ?insert_insert_eq.
Qed.

Lemma enqueueAll_withPending queueName tasks ks l :
  Forall fieldsSurvive tasks →
  ∃ docs,
    Forall2 (λ t data, unmarshalTask data zeroTask = Ok (omitEmpty t)) tasks docs ∧
    enqueueAll queueName tasks {| connected := true; keyspace := withPending ks queueName l |}
    = (replicate (length tasks) None,
       {| connected := true; keyspace := withPending ks queueName (l ++ docs) |}).
Proof.
  intros Hfields. revert l. induction Hfields as [|t tasks Ht _ IH]; intros l.
  - exists []. split; [constructor |]. simpl. by rewrite app_nil_r.
  - destruct (marshalTask_unmarshalTask t Ht) as (data & Hmarshal & Hunmarshal).
    destruct (IH (l ++ [data])) as (docs & Hdocs & Hall).
    exists (data :: docs). split; [by constructor |].
    cbn [length enqueueAll]. rewrite (Enqueue_withPending _ _ data) by done. rewrite Hall.
    by rewrite <- app_assoc.
Qed.

Lemma dequeueN_withPending queueName timeout tasks docs ks l :
  - Second < timeout →
  Forall2 (λ t data, unmarshalTask data zeroTask = Ok (omitEmpty t)) tasks docs →
  dequeueN queueName timeout (length tasks)
    {| connected := true; keyspace := withPending ks queueName (docs ++ l) |}
  = Some ((λ t, (Some (omitEmpty t), None)) <$> tasks,
          {| connected := true; keyspace := withPending ks queueName l |}).
Proof.
  intros Htimeout Hdocs. induction Hdocs as [|t data tasks docs Hdata _ IH]; [done |].
  rewrite <- app_comm_cons. cbn [length dequeueN].
  by rewrite Dequeue_withPending, Hdata, IH.
Qed.

(** X1: the queue is first-in first-out. Tasks whose fields survive their
    JSON round trip (valid UTF-8 texts, a time and payload values that
    [encoding/json] gives back), enqueued one after the other onto a queue
    that does not exist yet, on a reachable server, are all accepted, and
    as many calls of [Dequeue], with a timeout above minus one second,
    return them in the order of their enqueueing (each with an empty
    [evaluator_types] or [payload] turned to nil), after which the server
    is as it was before. *)
Theorem queue_first_in_first_out queueName timeout tasks r :
  connected r = true → keyspace r !! queueName = None →
  Forall fieldsSurvive tasks → - Second < timeout →
  (enqueueAll queueName tasks r).1 = replicate (length tasks) None ∧
  dequeueN queueName timeout (length tasks) (enqueueAll queueName tasks r).2
  = Some ((λ t, (Some (omitEmpty t), None)) <$> tasks, r).
Proof.
  intros Hup Hfresh Hfields Htimeout. destruct r as [up ks]. simpl in Hup, Hfresh. subst up.
  destruct (enqueueAll_withPending queueName tasks ks [] Hfields) as (docs & Hdocs & Hall).
  simpl in Hall. rewrite (delete_id _ _ Hfresh) in Hall. rewrite Hall. simpl.
  split; [done |].
  rewrite <- (app_nil_r docs).
  rewrite (dequeueN_withPending queueName timeout tasks docs ks [] Htimeout Hdocs).
  simpl. by rewrite (delete_id _ _ Hfresh).
Qed.

(** X2: an [Enqueue] that returns no error has made the queue one longer,
    and has touched no other key. *)
Theorem Enqueue_grows_queue queueName task r r' :
  Enqueue queueName task r = (None, r') →
  ∃ n, QueueLength queueName r = Ok n ∧
       QueueLength queueName r' = Ok (n + 1) ∧
       ∀ key, key ≠ queueName → keyspace r' !! key = keyspace r !! key.
Proof.
  intros Henq. destruct (Enqueue_ok _ _ _ _ Henq) as (data & _ & Hup & Hlist & ->).
  exists (len (pending queueName r)). split_and!.
  - by apply QueueLength_pending.
  - unfold QueueLength, LLen. simpl. rewrite lookup_insert_eq. by rewrite len_app.
  - intros key Hkey. simpl. by rewrite lookup_insert_ne.
Qed.

(** X3: a [Dequeue] that returns a task has made the queue one shorter,
    and has touched no other key. *)
Theorem Dequeue_shrinks_queue queueName timeout r task r' :
  Dequeue queueName timeout r = Some ((Some task, None), r') →
  ∃ n, QueueLength queueName r = Ok n ∧ 0 < n ∧
       QueueLength queueName r' = Ok (n - 1) ∧
       ∀ key, key ≠ queueName → keyspace r' !! key = keyspace r !! key.
Proof.
  intros Hdeq.
  destruct (Dequeue_cases _ _ _ _ _ Hdeq)
    as [[_ Hnone] | (Hup & Htimeout & data & rest & Hkey)]; [done |].
  rewrite (Dequeue_head _ _ _ _ _ Hup Htimeout Hkey) in Hdeq.
  injection Hdeq as _ <-.
  exists (len (data :: rest)). unfold QueueLength, LLen. rewrite Hup, Hkey. simpl.
  split_and!; [done | unfold len; simpl; lia | |].
  - replace (len (data :: rest) - 1) with (len rest) by (unfold len; simpl; lia).
    destruct rest as [|data' rest]; [by rewrite lookup_delete_eq | by rewrite lookup_insert_eq].
  - intros key Hne.
    destruct rest as [|data' rest]; [by rewrite lookup_delete_ne | by rewrite lookup_insert_ne].
Qed.

(** X4: what [Dequeue] does with nothing to return. It returns neither a
    task nor an error exactly when the server is reachable, nothing waits
    under the key and the timeout is positive, and the server is then left
    as it was. With the timeout zero and nothing waiting on a reachable
    server, and only then, the call does not return. With a timeout of
    minus one second or less on a reachable server it returns the server's
    error "ERR timeout is negative" and leaves the server as it was,
    whatever waits. *)
Theorem Dequeue_nothing_iff_empty queueName timeout r :
  (∀ r', Dequeue queueName timeout r = Some ((None, None), r') ↔
         connected r = true ∧ 0 < timeout ∧
         (keyspace r !! queueName = None ∨ keyspace r !! queueName = Some (RList [])) ∧
         r' = r) ∧
  (Dequeue queueName timeout r = None ↔
   connected r = true ∧ timeout = 0 ∧
   (keyspace r !! queueName = None ∨ keyspace r !! queueName = Some (RList []))) ∧
  (connected r = true → timeout ≤ - Second →
   Dequeue queueName timeout r
   = Some ((None, Some "failed to dequeue task: ERR timeout is negative"), r)).
Proof.
  split_and!; [| | intros Hup Hneg; by apply Dequeue_negative].
  - intros r'. destruct (connected r) eqn:Hup;
      [| rewrite (Dequeue_unreachable _ _ _ Hup); split; [done | by intros [? _]]].
    destruct (decide (timeout ≤ - Second)) as [Hneg | Htimeout].
    { rewrite (Dequeue_negative _ _ _ Hup Hneg). unfold Second in Hneg.
      split; [done | lia]. }
    apply Z.nle_gt in Htimeout.
    destruct (keyspace r !! queueName) as [[d | [|data rest]] |] eqn:Hkey.
    + rewrite (Dequeue_string _ _ _ d Hup Htimeout Hkey).
      split; [done |]. intros (_ & _ & [Hk | Hk] & _); congruence.
    + rewrite (Dequeue_empty _ _ _ Hup Htimeout (or_intror Hkey)).
      destruct (Z.ltb_spec 0 timeout); [| destruct (Z.eqb_spec timeout 0)].
      * split; [intros [= <-]; split_and!; by try right | by intros (_ & _ & _ & ->)].
      * split; [done | lia].
      * split; [done | lia].
    + rewrite (Dequeue_head _ _ _ _ _ Hup Htimeout Hkey).
      split; [by destruct (unmarshalTask data zeroTask) |].
      intros (_ & _ & [Hk | Hk] & _); congruence.
    + rewrite (Dequeue_empty _ _ _ Hup Htimeout (or_introl Hkey)).
      destruct (Z.ltb_spec 0 timeout); [| destruct (Z.eqb_spec timeout 0)].
      * split; [intros [= <-]; split_and!; by try left | by intros (_ & _ & _ & ->)].
      * split; [done | lia].
      * split; [done | lia].
  - destruct (connected r) eqn:Hup;
      [| rewrite (Dequeue_unreachable _ _ _ Hup); split; [done | by intros [? _]]].
    destruct (decide (timeout ≤ - Second)) as [Hneg | Htimeout].
    { rewrite (Dequeue_negative _ _ _ Hup Hneg). unfold Second in Hneg.
      split; [done | lia]. }
    apply Z.nle_gt in Htimeout.
    destruct (keyspace r !! queueName) as [[d | [|data rest]] |] eqn:Hkey.
    + rewrite (Dequeue_string _ _ _ d Hup Htimeout Hkey).
      split; [done |]. intros (_ & _ & [Hk | Hk]); congruence.
    + rewrite (Dequeue_empty _ _ _ Hup Htimeout (or_intror Hkey)).
      destruct (Z.ltb_spec 0 timeout); [| destruct (Z.eqb_spec timeout 0)].
      * split; [done | lia].
      * split; [intros _; split_and!; by try right | done].
      * split; [done | by intros (_ & ? & _)].
    + rewrite (Dequeue_head _ _ _ _ _ Hup Htimeout Hkey).
      split; [done |]. intros (_ & _ & [Hk | Hk]); congruence.
    + rewrite (Dequeue_empty _ _ _ Hup Htimeout (or_introl Hkey)).
      destruct (Z.ltb_spec 0 timeout); [| destruct (Z.eqb_spec timeout 0)].
      * split; [done | lia].
      * split; [intros _; split_and!; by try left | done].
      * split; [done | by intros (_ & ? & _)].
Qed.

(** X5: a waiting document that does not decode into a task is lost.
    [Dequeue], with a timeout above minus one second, takes it off the
    queue and returns an error that starts with "failed to unmarshal
    task: ", and the next call works on the documents behind it. *)
Theorem Dequeue_drops_undecodable queueName timeout r data rest e :
  connected r = true → keyspace r !! queueName = Some (RList (data :: rest)) →
  unmarshalTask data zeroTask = Err e → - Second < timeout →
  ∃ message r',
    Dequeue queueName timeout r
    = Some ((None, Some ("failed to unmarshal task: " ++ message)%string), r') ∧
    pending queueName r' = rest ∧
    QueueLength queueName r' = Ok (len rest).
Proof.
  intros Hup Hkey Hdata Htimeout.
  rewrite (Dequeue_head _ _ _ _ _ Hup Htimeout Hkey), Hdata.
  eexists e, _. split; [reflexivity |].
  unfold pending, QueueLength, LLen. simpl.
  destruct rest as [|data' rest]; [by rewrite lookup_delete_eq | by rewrite lookup_insert_eq].
Qed.

(** X6: [Enqueue] succeeds exactly when the task can be marshalled, the
    server is reachable and the key does not hold a string; an [Enqueue]
    that returns an error has left the server as it was. *)
Theorem Enqueue_fails_untouched queueName task r :
  ((Enqueue queueName task r).1 = None ↔
   (∃ data, marshalTaskPtr task = Ok data) ∧ connected r = true ∧
   ∀ d, keyspace r !! queueName ≠ Some (RString d)) ∧
  ((Enqueue queueName task r).1 ≠ None → (Enqueue queueName task r).2 = r).
Proof.
  destruct (Enqueue queueName task r) as [[e |] r'] eqn:Henq; simpl.
  - split; [| intros _; by apply (Enqueue_err _ _ _ _ _ Henq)].
    split; [done |]. intros ([data Hdata] & Hup & Hlist). exfalso.
    revert Henq. unfold Enqueue, RPush. rewrite Hdata, Hup.
    destruct (keyspace r !! queueName) as [[d | l] |] eqn:Hkey;
      [by destruct (Hlist d) | done | done].
  - split; [| done]. split; [| done]. intros _.
    destruct (Enqueue_ok _ _ _ _ Henq) as (data & Hdata & Hup & Hlist & _).
    split_and!; [by exists data | done | done].
Qed.

(** X7: a nil task pointer is accepted: [Enqueue] writes [null], and the
    [Dequeue] that meets it, with a timeout above minus one second, returns
    a task with every field zero and no error. *)
Theorem Enqueue_nil_task queueName timeout r :
  connected r = true → keyspace r !! queueName = None → - Second < timeout →
  ∃ r1, Enqueue queueName None r = (None, r1) ∧
        QueueLength queueName r1 = Ok 1 ∧
        Dequeue queueName timeout r1 = Some ((Some zeroTask, None), r).
Proof.
  intros Hup Hfresh Htimeout. destruct r as [up ks]. simpl in Hup, Hfresh. subst up.
  unfold Enqueue, RPush. simpl. rewrite Hfresh. eexists. split; [reflexivity |].
  split.
  - unfold QueueLength, LLen. simpl. by rewrite lookup_insert_eq.
  - rewrite (Dequeue_head queueName timeout _ JNull []);
      [| done | done | by simpl; rewrite lookup_insert_eq].
    simpl. by rewrite delete_insert_id.
Qed.

(** X8: after a [Delete] that returns no error the key is gone, whatever it
    held: the queue under it has length 0, a [Dequeue] with a positive
    timeout finds nothing, [Get] reports a missing key, and the other keys
    are as before. *)
Theorem Delete_removes key timeout dest r r' :
  Delete key r = (None, r') →
  keyspace r' = delete key (keyspace r) ∧
  QueueLength key r' = Ok 0 ∧
  (0 < timeout → Dequeue key timeout r' = Some ((None, None), r')) ∧
  Get key dest r' = (None, dest).
Proof.
  intros Hdel.
  assert (connected r' = true ∧ keyspace r' = delete key (keyspace r)) as [Hup Hkeys].
  { revert Hdel. unfold Delete, Del. destruct r as [[] ks]; simpl; [| done].
    destruct (ks !! key) as [v |] eqn:Hkey; intros [= <-]; simpl; [done |].
    by rewrite delete_id. }
  assert (keyspace r' !! key = None) as Hgone by (rewrite Hkeys; apply lookup_delete_eq).
  split_and!; [done | | |].
  - unfold QueueLength, LLen. by rewrite Hup, Hgone.
  - intros Hpos. unfold Second.
    rewrite (Dequeue_empty _ _ _ Hup) by (unfold Second; lia || by left).
    by rewrite (proj2 (Z.ltb_lt 0 timeout) Hpos).
  - unfold Get, RGet. by rewrite Hup, Hgone.
Qed.

(** X22: a new task goes behind the ones waiting. On a reachable server
    with documents waiting, a successful [Enqueue] does not change what the
    next [Dequeue], with a timeout above minus one second, returns, which
    is still the decoding of the document that has waited longest; after
    that [Dequeue] the documents that were behind it wait, followed by the
    document of the new task. *)
Theorem Enqueue_goes_behind queueName timeout task r data rest :
  connected r = true → keyspace r !! queueName = Some (RList (data :: rest)) →
  (Enqueue queueName task r).1 = None → - Second < timeout →
  ∃ out r1 r2 doc,
    Dequeue queueName timeout r = Some (out, r1) ∧
    Dequeue queueName timeout (Enqueue queueName task r).2 = Some (out, r2) ∧
    marshalTaskPtr task = Ok doc ∧
    pending queueName r1 = rest ∧
    pending queueName r2 = rest ++ [doc].
Proof.
  intros Hup Hkey Hok Htimeout.
  destruct (Enqueue queueName task r) as [err r0] eqn:Henq. simpl in Hok. subst err.
  destruct (Enqueue_ok _ _ _ _ Henq) as (doc & Hdoc & _ & _ & Hr0).
  assert (pending queueName r = data :: rest) as Hpending
    by (unfold pending; by rewrite Hkey).
  rewrite Hpending in Hr0. subst r0. cbn [snd].
  rewrite (Dequeue_head queueName timeout r data rest Hup Htimeout Hkey).
  rewrite (Dequeue_head queueName timeout _ data (rest ++ [doc]));
    [| done | done | by simpl; rewrite lookup_insert_eq].
  eexists _, _, _, doc. split_and!; [reflexivity | reflexivity | done | |].
  - unfold pending. cbn [keyspace].
    destruct rest as [|d l]; [by rewrite lookup_delete_eq | by rewrite lookup_insert_eq].
  - unfold pending. cbn [keyspace].
    destruct (rest ++ [doc]) as [|d l] eqn:Hrest; [by destruct rest |].
    by rewrite lookup_insert_eq.
Qed.

(** ** Keys written by [Set] *)

(** [Set] on a reachable server with a value that can be marshalled. *)
Lemma SetKey_ok key value expiration st data :
  connected (server st) = true → marshalValue value = Ok data →
  SetKey key value expiration st =
  (None,
   {| server := {| connected := true;
                   keyspace := <[key := RString data]> (keyspace (server st)) |};
      deadlines :=
        if 0 <? expiration then <[key := clock st + timeToLive expiration]> (deadlines st)
        else if expiration =? KeepTTL then deadlines st
        else delete key (deadlines st);
      clock := clock st |}).
Proof.
  intros Hup Hdata. unfold SetKey, RSet, setOption_of. rewrite Hdata, Hup.
  destruct (0 <? expiration); [done |]. by destruct (expiration =? KeepTTL).
Qed.

(** [Get] on a key that holds a string. *)
Lemma Get_string key dest r data :
  connected r = true → keyspace r !! key = Some (RString data) →
  Get key dest r = ((unmarshalInto data dest).2, (unmarshalInto data dest).1).
Proof.
  intros Hup Hkey. unfold Get, RGet. rewrite Hup, Hkey.
  by destruct (unmarshalInto data dest).
Qed.

(** X9: what [Set] has stored, [Get] reads back. After a [Set] on a
    reachable server, of a value that can be marshalled, [Get] on the same
    key decodes into [dest] the document [Set] wrote, whatever the key held
    before, and the other keys are as before. A queue kept under that key
    is gone: the key holds a string, [QueueLength] on it reports the
    server's WRONGTYPE error, and so does a [Dequeue] with a timeout above
    minus one second, leaving the server as it is. *)
Theorem Set_then_Get key value expiration dest timeout st data :
  connected (server st) = true → marshalValue value = Ok data →
  (SetKey key value expiration st).1 = None ∧
  Get key dest (server (SetKey key value expiration st).2)
  = ((unmarshalInto data dest).2, (unmarshalInto data dest).1) ∧
  (∀ other, other ≠ key →
     keyspace (server (SetKey key value expiration st).2) !! other
     = keyspace (server st) !! other) ∧
  QueueLength key (server (SetKey key value expiration st).2) = Err errWrongType ∧
  (- Second < timeout →
   Dequeue key timeout (server (SetKey key value expiration st).2)
   = Some ((None, Some ("failed to dequeue task: " ++ errWrongType)%string),
           server (SetKey key value expiration st).2)).
Proof.
  intros Hup Hdata. rewrite (SetKey_ok _ _ _ _ _ Hup Hdata). simpl.
  split_and!; [done | | | |].
  - apply Get_string; [done |]. simpl. apply lookup_insert_eq.
  - intros other Hother. by rewrite lookup_insert_ne.
  - unfold QueueLength, LLen. simpl. by rewrite lookup_insert_eq.
  - intros Htimeout. apply (Dequeue_string _ _ _ data); [done | done |].
    simpl. apply lookup_insert_eq.
Qed.

(** X10: a key written by [Set] with a positive expiration can be read
    until its time to live has passed and is gone afterwards: [Get] then
    reports a missing key, leaving [dest] as it was. The time to live is the
    expiration in whole milliseconds, one millisecond for a shorter one. *)
Theorem Set_expires key value expiration dest st data milliseconds :
  connected (server st) = true → marshalValue value = Ok data →
  0 < expiration →
  (milliseconds < timeToLive expiration →
   Get key dest (server (elapse milliseconds (SetKey key value expiration st).2))
   = ((unmarshalInto data dest).2, (unmarshalInto data dest).1)) ∧
  (timeToLive expiration < milliseconds →
   Get key dest (server (elapse milliseconds (SetKey key value expiration st).2))
   = (None, dest)).
Proof.
  intros Hup Hdata Hpos. rewrite (SetKey_ok _ _ _ _ _ Hup Hdata).
  rewrite (proj2 (Z.ltb_lt 0 expiration) Hpos).
  split; intros Hms.
  - apply Get_string; [done |]. simpl.
    apply map_lookup_filter_Some_2; [apply lookup_insert_eq |].
    unfold alive. simpl. rewrite lookup_insert_eq. apply bool_decide_eq_true. lia.
  - unfold Get, RGet. simpl.
    rewrite (map_lookup_filter_None_2 _ _ key); [done |].
    right. intros v _. unfold alive. simpl. rewrite lookup_insert_eq.
    rewrite bool_decide_eq_false_2; [done | lia].
Qed.

(** X11: a key written by [Set] with expiration zero (or a negative one
    other than [redis.KeepTTL]) has no time to live, also when the key had
    one before: it can be read however much time passes. *)
Theorem Set_without_expiration_stays key value expiration dest st data milliseconds :
  connected (server st) = true → marshalValue value = Ok data →
  expiration ≤ 0 → expiration ≠ KeepTTL →
  Get key dest (server (elapse milliseconds (SetKey key value expiration st).2))
  = ((unmarshalInto data dest).2, (unmarshalInto data dest).1).
Proof.
  intros Hup Hdata Hzero Hkeep. rewrite (SetKey_ok _ _ _ _ _ Hup Hdata).
  rewrite (proj2 (Z.ltb_ge 0 expiration) Hzero).
  rewrite (proj2 (Z.eqb_neq expiration KeepTTL) Hkeep).
  apply Get_string; [done |]. simpl.
  apply map_lookup_filter_Some_2; [apply lookup_insert_eq |].
  unfold alive. simpl. by rewrite lookup_delete_eq.
Qed.

(** ** Dispatch by the handlers *)

Lemma Enqueue_succeeds queueName task r data :
  marshalTaskPtr task = Ok data → connected r = true →
  (∀ d, keyspace r !! queueName ≠ Some (RString d)) →
  Enqueue queueName task r =
  (None, {| connected := true;
            keyspace := <[queueName := RList (pending queueName r ++ [data])]> (keyspace r) |}).
Proof.
  intros Hdata Hup Hlist. unfold Enqueue, RPush, pending. rewrite Hdata, Hup.
  destruct (keyspace r !! queueName) as [[d | l] |] eqn:Hkey;
    [by destruct (Hlist d) | done | done].
Qed.

Lemma QueueLength_ok queueName r n :
  QueueLength queueName r = Ok n →
  connected r = true ∧ (∀ d, keyspace r !! queueName ≠ Some (RString d)) ∧
  n = len (pending queueName r).
Proof.
  unfold QueueLength, LLen, pending. destruct (connected r); [| done].
  destruct (keyspace r !! queueName) as [[d | l] |]; [done | |]; by intros [= <-].
Qed.

Lemma defaultEvaluatorTypes_valid : Forall validText defaultEvaluatorTypes.
Proof. repeat constructor; by vm_compute. Qed.

Lemma ingestTask_fieldsSurvive conv taskID now :
  validText taskID → validText (ccConversationID conv) → timeSurvives now →
  fieldsSurvive (ingestTask conv taskID now).
Proof.
  intros Hid Hconv Hnow. unfold fieldsSurvive. simpl.
  split_and!; [done | by vm_compute | done | apply defaultEvaluatorTypes_valid
              | apply map_Forall_empty | done].
Qed.

Lemma triggerTask_fieldsSurvive req taskID now :
  validText taskID → validText (reqConversationID req) →
  Forall validText (default [] (reqEvaluatorTypes req)) → timeSurvives now →
  fieldsSurvive (triggerTask req taskID now).
Proof.
  intros Hid Hconv Htypes Hnow. unfold fieldsSurvive, triggerTask. simpl.
  split_and!; [done | by vm_compute | done | | apply map_Forall_empty | done].
  case_decide as Hlen; [apply defaultEvaluatorTypes_valid | done].
Qed.

Lemma triggerTask_evaluatorTypes req taskID now :
  EvaluatorTypes (triggerTask req taskID now) =
  match reqEvaluatorTypes req with
  | Some (e :: l) => Some (e :: l)
  | _ => Some defaultEvaluatorTypes
  end.
Proof. unfold triggerTask. simpl. by destruct (reqEvaluatorTypes req) as [[|e l] |]. Qed.

(** A task built by a handler always names at least one evaluator and has
    no payload, so [omitempty] changes nothing in it. *)
Lemma omitEmpty_triggerTask req taskID now :
  omitEmpty (triggerTask req taskID now) = triggerTask req taskID now.
Proof.
  apply omitEmpty_id; [| done].
  rewrite triggerTask_evaluatorTypes. by destruct (reqEvaluatorTypes req) as [[|e l] |].
Qed.

(** X12: what a trigger request does to the server. The repository is
    never written. The answer is 200 only for a bound request, and then
    carries the task id, the conversation id and "queued", and the
    "evaluations" queue has become one longer; with any other answer the
    server is exactly as before. *)
Theorem triggerEvaluation_effect bound taskID now s :
  repo (triggerEvaluation bound taskID now s).2 = repo s ∧
  (status (triggerEvaluation bound taskID now s).1 = StatusOK →
   ∃ req n,
     bound = Ok req ∧
     body (triggerEvaluation bound taskID now s).1
     = QueuedBody taskID (reqConversationID req) "queued" ∧
     QueueLength "evaluations" (queue s) = Ok n ∧
     QueueLength "evaluations" (queue (triggerEvaluation bound taskID now s).2)
     = Ok (n + 1)) ∧
  (status (triggerEvaluation bound taskID now s).1 ≠ StatusOK →
   (triggerEvaluation bound taskID now s).2 = s).
Proof.
  unfold triggerEvaluation. destruct bound as [req | e]; [| done].
  destruct (repoGetConversation (reqConversationID req) (repo s)) as [[stored |] | e];
    [| done | done].
  destruct (Enqueue "evaluations" (Some (triggerTask req taskID now)) (queue s))
    as [[e |] queue'] eqn:Henq; simpl.
  - split_and!; [done | done |]. intros _.
    rewrite (Enqueue_err _ _ _ _ _ Henq). by destruct s.
  - split_and!; [done | | done]. intros _.
    destruct (Enqueue_ok _ _ _ _ Henq) as (data & _ & Hup & Hlist & ->).
    exists req, (len (pending "evaluations" (queue s))).
    split_and!; [done | done | by apply QueueLength_pending |].
    unfold QueueLength, LLen. simpl. rewrite lookup_insert_eq. by rewrite len_app.
Qed.

(** The task a trigger request dispatches, field by field. *)
Lemma triggerTask_fields req taskID now :
  triggerTask req taskID now =
  {| ID := taskID; taskType := "evaluate";
     taskConversationID := reqConversationID req;
     EvaluatorTypes := match reqEvaluatorTypes req with
                       | Some (e :: l) => Some (e :: l)
                       | _ => Some defaultEvaluatorTypes
                       end;
     Payload := None; CreatedAt := now |}.
Proof. unfold triggerTask. by destruct (reqEvaluatorTypes req) as [[|e l] |]. Qed.

(** X13: a trigger request reaches the worker. Take a request for a stored
    conversation whose task id, conversation id and evaluator types are
    valid UTF-8 and whose creation time survives its JSON round trip, with
    the server of the queue reachable and nothing waiting. It is answered
    200 "queued", and the worker's next [Dequeue], with a timeout above
    minus one second, returns the task with that task id, that
    conversation id, type "evaluate", that creation time, no payload, and
    the evaluator types of the request when it lists any, the four default
    ones when its list is missing or empty; the queue is then as it was. *)
Theorem triggerEvaluation_then_Dequeue req taskID now timeout s stored :
  repoGetConversation (reqConversationID req) (repo s) = Ok (Some stored) →
  connected (queue s) = true → keyspace (queue s) !! "evaluations" = None →
  validText taskID → validText (reqConversationID req) →
  Forall validText (default [] (reqEvaluatorTypes req)) → timeSurvives now →
  - Second < timeout →
  (triggerEvaluation (Ok req) taskID now s).1
  = {| status := StatusOK; body := QueuedBody taskID (reqConversationID req) "queued" |} ∧
  Dequeue "evaluations" timeout (queue (triggerEvaluation (Ok req) taskID now s).2)
  = Some ((Some {| ID := taskID; taskType := "evaluate";
                   taskConversationID := reqConversationID req;
                   EvaluatorTypes := match reqEvaluatorTypes req with
                                     | Some (e :: l) => Some (e :: l)
                                     | _ => Some defaultEvaluatorTypes
                                     end;
                   Payload := None; CreatedAt := now |}, None), queue s).
Proof.
  intros Hstored Hup Hfresh Hid Hconv Htypes Hnow Htimeout.
  pose proof (triggerTask_fieldsSurvive req taskID now Hid Hconv Htypes Hnow) as Hfields.
  destruct (enqueue_dequeue "evaluations" timeout _ _ Hup Hfresh Hfields Htimeout)
    as (r1 & Henq & Hdeq).
  unfold triggerEvaluation. rewrite Hstored, Henq. simpl. split; [done |].
  by rewrite Hdeq, omitEmpty_triggerTask, triggerTask_fields.
Qed.

(** X14: what ingestion does to the queue. It leaves the queue as it was
    unless the answer is 201 and [auto_evaluate] is absent or exactly
    "true" (a value such as "1" or "TRUE" switches dispatch off); and then
    all it can do is put the one task of the created conversation behind
    the documents already waiting, every other key left alone. *)
Theorem createConversation_dispatch bound autoEvaluateQuery taskID now s :
  (status (createConversation bound autoEvaluateQuery taskID now s).1 ≠ StatusCreated →
   queue (createConversation bound autoEvaluateQuery taskID now s).2 = queue s) ∧
  (∀ q, autoEvaluateQuery = Some q → q ≠ "true" →
   queue (createConversation bound autoEvaluateQuery taskID now s).2 = queue s) ∧
  (queue (createConversation bound autoEvaluateQuery taskID now s).2 = queue s ∨
   ∃ conv data,
     bound = Ok conv ∧ marshalTask (ingestTask conv taskID now) = Ok data ∧
     keyspace (queue (createConversation bound autoEvaluateQuery taskID now s).2)
     = <["evaluations" := RList (pending "evaluations" (queue s) ++ [data])]>
         (keyspace (queue s))).
Proof.
  unfold createConversation. destruct bound as [conv | e]; [| split_and!; [done | done | by left]].
  destruct (repoCreateConversation conv (repo s)) as [[created | e] repo'];
    [| split_and!; [done | done | by left]].
  simpl. split_and!; [done | |].
  - intros q -> Hq. simpl. by rewrite bool_decide_eq_false_2.
  - destruct (bool_decide (default "true" autoEvaluateQuery = "true")); [| by left].
    destruct (Enqueue "evaluations" (Some (ingestTask conv taskID now)) (queue s))
      as [[e |] queue'] eqn:Henq; simpl.
    + left. apply (Enqueue_err _ _ _ _ _ Henq).
    + right. destruct (Enqueue_ok _ _ _ _ Henq) as (data & Hdata & _ & _ & ->).
      by exists conv, data.
Qed.

(** X15: an ingested conversation reaches the worker. Take a conversation
    the repository accepts, with [auto_evaluate] absent or "true", a task
    id and a conversation id that are valid UTF-8, a creation time that
    survives its JSON round trip, the server of the queue reachable and
    nothing waiting. The answer is 201 with the created conversation, one
    task waits, and the worker's next [Dequeue], with a timeout above minus
    one second, returns the task of that conversation, with type
    "evaluate" and the four default evaluator types; the queue is then as
    it was. *)
Theorem createConversation_then_Dequeue
    conv autoEvaluateQuery taskID now timeout s created repo' :
  repoCreateConversation conv (repo s) = (Ok created, repo') →
  autoEvaluateQuery = None ∨ autoEvaluateQuery = Some "true" →
  connected (queue s) = true → keyspace (queue s) !! "evaluations" = None →
  validText taskID → validText (ccConversationID conv) → timeSurvives now →
  - Second < timeout →
  (createConversation (Ok conv) autoEvaluateQuery taskID now s).1
  = {| status := StatusCreated; body := ConversationBody created |} ∧
  QueueLength "evaluations"
    (queue (createConversation (Ok conv) autoEvaluateQuery taskID now s).2) = Ok 1 ∧
  Dequeue "evaluations" timeout
    (queue (createConversation (Ok conv) autoEvaluateQuery taskID now s).2)
  = Some ((Some {| ID := taskID; taskType := "evaluate";
                   taskConversationID := ccConversationID conv;
                   EvaluatorTypes := Some defaultEvaluatorTypes;
                   Payload := None; CreatedAt := now |}, None), queue s).
Proof.
  intros Hcreated Hauto Hup Hfresh Hid Hconv Hnow Htimeout.
  pose proof (ingestTask_fieldsSurvive conv taskID now Hid Hconv Hnow) as Hfields.
  destruct (enqueue_dequeue "evaluations" timeout _ _ Hup Hfresh Hfields Htimeout)
    as (r1 & Henq & Hdeq).
  unfold createConversation. rewrite Hcreated.
  replace (bool_decide (default "true" autoEvaluateQuery = "true")) with true
    by (by destruct Hauto as [-> | ->]).
  simpl. rewrite Henq. simpl. split_and!; [done | | by rewrite Hdeq].
  destruct (Enqueue_ok _ _ _ _ Henq) as (data & _ & _ & _ & ->).
  unfold QueueLength, LLen, pending. simpl. rewrite lookup_insert_eq, Hfresh. done.
Qed.

(** ** Batch ingestion *)

(** The ids collected by the loop and the repository it leaves are those of
    [createAll], whatever the queue does. *)
Lemma batchLoop_createAll autoEvaluate taskID now i convs conversationIDs s :
  (batchLoop autoEvaluate taskID now i convs (conversationIDs, s)).1
  = conversationIDs ++ (createAll convs (repo s)).1 ∧
  repo (batchLoop autoEvaluate taskID now i convs (conversationIDs, s)).2
  = (createAll convs (repo s)).2.
Proof.
  revert i conversationIDs s.
  induction convs as [|conv convs IH]; intros i conversationIDs s.
  - simpl. by rewrite app_nil_r.
  - cbn [batchLoop createAll]. unfold batchStep.
    destruct (repoCreateConversation conv (repo s)) as [[created | e] repo1].
    + destruct (IH (S i) (conversationIDs ++ [ccConversationID conv])
                  {| repo := repo1;
                     queue := if autoEvaluate
                              then (Enqueue "evaluations"
                                      (Some (ingestTask conv (taskID i) (now i)))
                                      (queue s)).2
                              else queue s |}) as [Hids Hrepo].
      rewrite Hids, Hrepo. simpl.
      destruct (createAll convs repo1) as [accepted repo2]. simpl.
      by rewrite <- app_assoc.
    + destruct (IH (S i) conversationIDs {| repo := repo1; queue := queue s |})
        as [Hids Hrepo].
      rewrite Hids, Hrepo. simpl. by destruct (createAll convs repo1).
Qed.

Lemma createAll_sublist convs repo0 :
  sublist (createAll convs repo0).1 (ccConversationID <$> convs).
Proof.
  revert repo0. induction convs as [|conv convs IH]; intros repo0; [constructor |].
  simpl. destruct (repoCreateConversation conv repo0) as [[created | e] repo1].
  - specialize (IH repo1). destruct (createAll convs repo1). simpl in *.
    by apply sublist_skip.
  - specialize (IH repo1). destruct (createAll convs repo1). simpl in *.
    by apply sublist_cons.
Qed.

(** Without dispatch the loop leaves the queue alone. *)
Lemma batchLoop_no_dispatch taskID now i convs st :
  queue (batchLoop false taskID now i convs st).2 = queue st.2.
Proof.
  revert i st. induction convs as [|conv convs IH]; intros i [conversationIDs s]; [done |].
  cbn [batchLoop]. rewrite IH. unfold batchStep.
  by destruct (repoCreateConversation conv (repo s)) as [[created | e] repo1].
Qed.

(** With dispatch, on a queue that can be written, the loop enqueues one
    task for every id it collects. *)
Lemma batchLoop_dispatch taskID now i convs st n :
  (∀ k, ∃ j, marshalTime (now k) = Ok j) →
  QueueLength "evaluations" (queue st.2) = Ok n →
  QueueLength "evaluations" (queue (batchLoop true taskID now i convs st).2)
  = Ok (n + (len (batchLoop true taskID now i convs st).1 - len st.1)).
Proof.
  intros Hnow. revert i st n.
  induction convs as [|conv convs IH]; intros i [conversationIDs s] n Hlen.
  - simpl in *. rewrite Hlen. f_equal. lia.
  - cbn [batchLoop]. simpl in Hlen.
    assert (∃ ids' s1,
              batchStep true (taskID i) (now i) (conversationIDs, s) conv = (ids', s1) ∧
              QueueLength "evaluations" (queue s1)
              = Ok (n + (len ids' - len conversationIDs))) as (ids' & s1 & -> & Hlen1).
    { unfold batchStep.
      destruct (repoCreateConversation conv (repo s)) as [[created | e] repo1].
      - destruct (QueueLength_ok _ _ _ Hlen) as (Hup & Hlist & ->).
        destruct (Hnow i) as [j Hj].
        assert (∃ data,
                  marshalTaskPtr (Some (ingestTask conv (taskID i) (now i))) = Ok data)
          as [data Hdata].
        { unfold marshalTaskPtr, marshalTask. simpl. rewrite Hj. by eexists. }
        rewrite (Enqueue_succeeds _ _ _ _ Hdata Hup Hlist).
        eexists _, _. split; [reflexivity |].
        unfold QueueLength, LLen. simpl. rewrite lookup_insert_eq. rewrite !len_app.
        f_equal. change (len [data]) with 1.
        change (len [ccConversationID conv]) with 1. lia.
      - eexists _, _. split; [reflexivity |]. simpl in *. rewrite Hlen. f_equal. lia. }
    rewrite (IH (S i) (ids', s1) _ Hlen1). simpl. f_equal. lia.
Qed.

(** X16: the answer of batch ingestion. A bound batch is always answered
    201, also when the repository refused every conversation; the ids
    listed are those of the conversations the repository accepted, in the
    order of the batch, a refusal not stopping the ones behind it;
    [ingested] is their number; every conversation of the batch has been
    handed to the repository. Neither depends on the queue. *)
Theorem batchCreateConversations_ingested convs autoEvaluateQuery taskID now s :
  (batchCreateConversations (Ok convs) autoEvaluateQuery taskID now s).1
  = {| batchStatus := StatusCreated;
       batchBody := BatchIngestBody
                      {| Ingested := len (createAll convs (repo s)).1;
                         ConversationIDs := (createAll convs (repo s)).1 |} |} ∧
  repo (batchCreateConversations (Ok convs) autoEvaluateQuery taskID now s).2
  = (createAll convs (repo s)).2 ∧
  sublist (createAll convs (repo s)).1 (ccConversationID <$> convs) ∧
  0 ≤ len (createAll convs (repo s)).1 ≤ len convs.
Proof.
  unfold batchCreateConversations.
  destruct (batchLoop_createAll
              (bool_decide (default "true" autoEvaluateQuery = "true"))
              taskID now 0 convs [] s) as [Hids Hrepo].
  destruct (batchLoop _ taskID now 0 convs ([], s)) as [conversationIDs s'].
  simpl in *. subst conversationIDs.
  pose proof (createAll_sublist convs (repo s)) as Hsub.
  split_and!; [done | done | done | apply len_nonneg |].
  apply sublist_length in Hsub. rewrite length_fmap in Hsub. unfold len. lia.
Qed.

(** X17: the tasks of batch ingestion. With [auto_evaluate] given and
    other than "true" the queue is left as it was. With it absent or
    "true", on a queue that can be written, the "evaluations" queue grows
    by exactly the number of conversations ingested. *)
Theorem batchCreateConversations_dispatch convs autoEvaluateQuery taskID now s :
  (∀ q, autoEvaluateQuery = Some q → q ≠ "true" →
   queue (batchCreateConversations (Ok convs) autoEvaluateQuery taskID now s).2 = queue s) ∧
  (∀ n, autoEvaluateQuery = None ∨ autoEvaluateQuery = Some "true" →
   (∀ k, ∃ j, marshalTime (now k) = Ok j) →
   QueueLength "evaluations" (queue s) = Ok n →
   QueueLength "evaluations"
     (queue (batchCreateConversations (Ok convs) autoEvaluateQuery taskID now s).2)
   = Ok (n + len (createAll convs (repo s)).1)).
Proof.
  unfold batchCreateConversations. split.
  - intros q -> Hq. simpl. rewrite bool_decide_eq_false_2 by done.
    pose proof (batchLoop_no_dispatch taskID now 0 convs ([], s)) as Hqueue.
    by destruct (batchLoop false taskID now 0 convs ([], s)).
  - intros n Hauto Hnow Hlen.
    replace (bool_decide (default "true" autoEvaluateQuery = "true")) with true
      by (by destruct Hauto as [-> | ->]).
    pose proof (batchLoop_dispatch taskID now 0 convs ([], s) n Hnow Hlen) as Hqueue.
    destruct (batchLoop_createAll true taskID now 0 convs [] s) as [Hids _].
    destruct (batchLoop true taskID now 0 convs ([], s)) as [conversationIDs s'].
    simpl in *. subst conversationIDs. rewrite Hqueue. f_equal.
    change (len (@nil string)) with 0. lia.
Qed.

(** ** More on routing and agreement *)

Lemma routeEvaluation_suggestTypes conversationID eval :
  SuggestedAnnotationTypes (routeEvaluation conversationID eval)
  = suggestTypes (unmarshalIssues (IssuesDetected eval)).
Proof. unfold routeEvaluation. by destruct (PrimFloat.ltb _ _), (0 <? _). Qed.

(** X18: human review is asked for only on a trigger. The decision needs
    human review exactly when the score is below 0.4 or some issue is
    critical; its priority is "high" exactly then and "low" otherwise; each
    of the two reasons is recorded exactly when its trigger fired, and no
    reason is recorded exactly when no review is needed. *)
Theorem routing_review_only_on_trigger conversationID eval :
  len (unmarshalIssues (IssuesDetected eval)) ≤ maxInt →
  (NeedsHumanReview (routeEvaluation conversationID eval) = true ↔
   PrimFloat.ltb (OverallScore eval) 0.4%float = true ∨
   ∃ issue, issue ∈ unmarshalIssues (IssuesDetected eval) ∧ Severity issue = "critical") ∧
  Priority (routeEvaluation conversationID eval)
  = (if NeedsHumanReview (routeEvaluation conversationID eval) then "high" else "low") ∧
  ("Low quality score" ∈ RoutingReason (routeEvaluation conversationID eval) ↔
   PrimFloat.ltb (OverallScore eval) 0.4%float = true) ∧
  ("Critical issues detected" ∈ RoutingReason (routeEvaluation conversationID eval) ↔
   ∃ issue, issue ∈ unmarshalIssues (IssuesDetected eval) ∧ Severity issue = "critical") ∧
  (RoutingReason (routeEvaluation conversationID eval) = [] ↔
   NeedsHumanReview (routeEvaluation conversationID eval) = false).
Proof.
  intros Hlen. pose proof (countCritical_pos _ Hlen) as Hcrit.
  unfold routeEvaluation.
  destruct (PrimFloat.ltb (OverallScore eval) 0.4%float) eqn:Hlow;
    destruct (0 <? countCritical (unmarshalIssues (IssuesDetected eval))) eqn:Hpos; simpl.
  - apply Z.ltb_lt in Hpos. apply Hcrit in Hpos.
    split_and!; [split; [by left | done] | done | | | done].
    + split; [done |]. intros _. rewrite elem_of_cons. by left.
    + split; [done |]. intros _. rewrite !elem_of_cons. right. by left.
  - apply Z.ltb_ge in Hpos.
    split_and!; [split; [by left | done] | done | | | done].
    + split; [done |]. intros _. rewrite elem_of_cons. by left.
    + rewrite list_elem_of_singleton. split; [done |]. intros Hex%Hcrit. lia.
  - apply Z.ltb_lt in Hpos. apply Hcrit in Hpos.
    split_and!; [split; [by right | done] | done | | | done].
    + rewrite list_elem_of_singleton. split; done.
    + split; [done |]. intros _. rewrite elem_of_cons. by left.
  - apply Z.ltb_ge in Hpos.
    split_and!; [| done | | | done].
    + split; [done |]. intros [Habs | Hex%Hcrit]; [done | lia].
    + split; [| done]. intros Habs. by apply elem_of_nil in Habs.
    + split; [| intros Hex%Hcrit; lia]. intros Habs. by apply elem_of_nil in Habs.
Qed.

(** The suggested types are "general_quality" followed by what each issue
    adds, issue after issue. *)
Lemma suggestTypes_flat issues suggestedTypes :
  foldl suggestStep suggestedTypes issues
  = suggestedTypes ++ flat_map (suggestStep []) issues.
Proof.
  revert suggestedTypes. induction issues as [|issue issues IH]; intros suggestedTypes.
  - simpl. by rewrite app_nil_r.
  - simpl. rewrite IH, app_assoc. f_equal.
    unfold suggestStep. repeat case_decide; simpl; by rewrite <- ?app_assoc, ?app_nil_r.
Qed.

Lemma suggested_count x issues :
  len (filter (λ y, y = x) (flat_map (suggestStep []) issues))
  = (if decide (x = "tool_accuracy")
     then len (filter (λ issue, issueType issue = "tool" ∨
                                issueType issue = "tool_execution_failure") issues)
     else 0)
  + (if decide (x = "coherence")
     then len (filter (λ issue, issueType issue = "context_loss" ∨
                                issueType issue = "coherence") issues)
     else 0).
Proof.
  induction issues as [|issue issues IH].
  - simpl. by repeat case_decide.
  - cbn [flat_map]. rewrite filter_app, len_app, IH, !filter_cons.
    unfold suggestStep.
    destruct (decide (issueType issue = "tool" ∨ issueType issue = "tool_execution_failure"));
      destruct (decide (issueType issue = "context_loss" ∨ issueType issue = "coherence"));
      simpl; rewrite ?filter_cons, ?filter_nil;
      repeat case_decide; first [congruence | unfold len; simpl; lia].
Qed.

Lemma suggested_total issues :
  len (flat_map (suggestStep []) issues)
  = len (filter (λ issue, issueType issue = "tool" ∨
                          issueType issue = "tool_execution_failure") issues)
  + len (filter (λ issue, issueType issue = "context_loss" ∨
                          issueType issue = "coherence") issues).
Proof.
  induction issues as [|issue issues IH]; [done |].
  cbn [flat_map]. rewrite len_app, IH, !filter_cons. unfold suggestStep.
  repeat case_decide; unfold len; simpl; lia.
Qed.

(** X19: duplicates among the suggested annotation types are kept. The
    list starts with "general_quality", which occurs in it once;
    "tool_accuracy" occurs once for every issue of type "tool" or
    "tool_execution_failure", "coherence" once for every issue of type
    "context_loss" or "coherence", and nothing else occurs. *)
Theorem suggested_types_once_per_issue conversationID eval :
  (∃ rest, SuggestedAnnotationTypes (routeEvaluation conversationID eval)
           = "general_quality" :: rest ∧ "general_quality" ∉ rest) ∧
  len (filter (λ y, y = "tool_accuracy")
         (SuggestedAnnotationTypes (routeEvaluation conversationID eval)))
  = len (filter (λ issue, issueType issue = "tool" ∨
                          issueType issue = "tool_execution_failure")
           (unmarshalIssues (IssuesDetected eval))) ∧
  len (filter (λ y, y = "coherence")
         (SuggestedAnnotationTypes (routeEvaluation conversationID eval)))
  = len (filter (λ issue, issueType issue = "context_loss" ∨
                          issueType issue = "coherence")
           (unmarshalIssues (IssuesDetected eval))) ∧
  len (SuggestedAnnotationTypes (routeEvaluation conversationID eval))
  = 1 + len (filter (λ issue, issueType issue = "tool" ∨
                              issueType issue = "tool_execution_failure")
               (unmarshalIssues (IssuesDetected eval)))
      + len (filter (λ issue, issueType issue = "context_loss" ∨
                              issueType issue = "coherence")
               (unmarshalIssues (IssuesDetected eval))).
Proof.
  rewrite routeEvaluation_suggestTypes. unfold suggestTypes. rewrite suggestTypes_flat.
  set (issues := unmarshalIssues (IssuesDetected eval)).
  pose proof (suggested_count "general_quality" issues) as Hgeneral.
  pose proof (suggested_count "tool_accuracy" issues) as Htool.
  pose proof (suggested_count "coherence" issues) as Hcoherence.
  simpl in Hgeneral, Htool, Hcoherence.
  split_and!.
  - eexists. split; [reflexivity |]. intros Hin.
    assert (0 < len (filter (λ y, y = "general_quality") (flat_map (suggestStep []) issues)));
      [| lia].
    apply list_elem_of_split in Hin as (pre & post & ->).
    rewrite filter_app, filter_cons_True, !len_app by done.
    pose proof (len_nonneg (filter (λ y, y = "general_quality") pre)).
    pose proof (len_nonneg (filter (λ y, y = "general_quality") post)).
    unfold len in *. simpl. lia.
  - simpl. rewrite filter_cons_False by done. rewrite Htool. lia.
  - simpl. rewrite filter_cons_False by done. rewrite Hcoherence. lia.
  - rewrite len_app, suggested_total. change (len ["general_quality"]) with 1. lia.
Qed.

(** X20: one annotation agrees with itself. For a single annotation the
    majority label is its label, in every map iteration, the agreement
    score is 1.0 without any division, the annotators are its annotator
    alone, and a tiebreaker is asked for only under a threshold above 1.0. *)
Theorem single_annotation_agrees threshold visit conversationID annotationType ann :
  mapRange visit →
  MajorityLabel (computeAgreement threshold visit conversationID annotationType [ann])
  = Label ann ∧
  AgreementScore (computeAgreement threshold visit conversationID annotationType [ann])
  = 1%float ∧
  NeedsTiebreaker (computeAgreement threshold visit conversationID annotationType [ann])
  = PrimFloat.ltb 1%float threshold ∧
  Annotators (computeAgreement threshold visit conversationID annotationType [ann])
  = [AnnotatorID ann].
Proof.
  intros Hvisit.
  destruct (computeAgreement_fields threshold visit conversationID annotationType [ann])
    as (_ & _ & Hannotators & Hmajority & Hscore & Hneeds & _).
  change (1 <? len [ann]) with false in Hscore. cbv iota in Hscore.
  rewrite Hscore in Hneeds.
  split_and!; [| done | done | done].
  rewrite Hmajority.
  destruct (scanMajority (visit (tally [ann]).2)) as [l c] eqn:Hscan.
  destruct (scanMajority_tally [ann] (visit (tally [ann]).2) l c) as (Hc & Hpos & _);
    [done | by vm_compute | apply Hvisit | done |].
  rewrite Hc in Hpos. apply countLabel_pos in Hpos.
  simpl in Hpos. by apply list_elem_of_singleton in Hpos.
Qed.

(** X21: two annotators who disagree. For two annotations with different
    labels the agreement score is 0.5 in every map iteration, the majority
    label is one of the two labels, and a tiebreaker is asked for exactly
    when the threshold is above 0.5, as it is at the default 0.8. *)
Theorem two_annotators_disagree threshold visit conversationID annotationType ann1 ann2 :
  mapRange visit → Label ann1 ≠ Label ann2 →
  (MajorityLabel (computeAgreement threshold visit conversationID annotationType [ann1; ann2])
   = Label ann1 ∨
   MajorityLabel (computeAgreement threshold visit conversationID annotationType [ann1; ann2])
   = Label ann2) ∧
  AgreementScore (computeAgreement threshold visit conversationID annotationType [ann1; ann2])
  = 0.5%float ∧
  NeedsTiebreaker (computeAgreement threshold visit conversationID annotationType [ann1; ann2])
  = PrimFloat.ltb 0.5%float threshold ∧
  PrimFloat.ltb 0.5%float 0.8%float = true.
Proof.
  intros Hvisit Hdiffer.
  destruct (computeAgreement_fields threshold visit conversationID annotationType
              [ann1; ann2])
    as (_ & _ & _ & Hmajority & Hscore & Hneeds & _).
  destruct (scanMajority (visit (tally [ann1; ann2]).2)) as [l c] eqn:Hscan.
  destruct (scanMajority_tally [ann1; ann2] (visit (tally [ann1; ann2]).2) l c)
    as (Hc & Hpos & _);
    [done | by vm_compute | apply Hvisit | done |].
  assert (l = Label ann1 ∨ l = Label ann2) as Hl.
  { rewrite Hc in Hpos. apply countLabel_pos in Hpos. simpl in Hpos.
    rewrite !elem_of_cons in Hpos. destruct Hpos as [? | [? | Hnil]]; [by left | by right |].
    by apply elem_of_nil in Hnil. }
  assert (c = 1) as ->.
  { rewrite Hc. unfold countLabel.
    destruct Hl as [-> | ->].
    - rewrite filter_cons_True, filter_cons_False by done. done.
    - rewrite filter_cons_False, filter_cons_True by done. done. }
  simpl in Hmajority, Hscore.
  change (1 <? len [ann1; ann2]) with true in Hscore. cbv iota in Hscore.
  rewrite Hscore in Hneeds.
  split_and!; [by rewrite Hmajority | done | done | by vm_compute].
Qed.

End AgentEval.

(** * The development at a concrete instance

    Times as their RFC 3339 texts, payload values and [Get] destinations as
    the documents they decode from, and a repository that keeps the
    conversations by id. *)

#[global] Instance textTimeJSON : TimeJSON string := {|
  marshalTime c := Ok (JString c);
  unmarshalTime j old :=
    match j with
    | JString s => Ok s
    | JNull => Ok old
    | _ => Err "Time.UnmarshalJSON: input is not a JSON string"
    end;
  zeroTime := "0001-01-01T00:00:00Z"
|}.

#[global] Instance documentValueJSON : ValueJSON json := {|
  marshalValue := Ok;
  unmarshalValue j := j
|}.

#[global] Instance documentDestJSON : DestJSON json := {|
  unmarshalInto data _ := (data, None)
|}.

Definition storeConversation (conv : @ConversationCreate string json)
    (db : gmap string (@Conversation string))
    : result (@Conversation string) * gmap string (@Conversation string) :=
  match db !! ccConversationID conv with
  | Some _ =>
      (Err "failed to create conversation: duplicate key value (conversation_id)", db)
  | None =>
      let created :=
        {| convID := Z.of_nat (size db) + 1;
           ConversationID := ccConversationID conv;
           AgentVersion := ccAgentVersion conv;
           Turns := "[]"; Metadata := "{}";
           convCreatedAt := "2024-05-01T10:00:00Z";
           convUpdatedAt := "2024-05-01T10:00:00Z" |} in
      (Ok created, <[ccConversationID conv := created]> db)
  end.

#[global] Instance conversationsRepository
    : Repository (GoTime := string) (Value := json) (gmap string (@Conversation string)) := {|
  repoCreateConversation := storeConversation;
  repoGetConversation conversationID db := Ok (db !! conversationID);
  repoGetAnnotationsForConversation _ _ _ := Ok [];
  repoGetLatestEvaluationForConversation _ _ := Ok None
|}.

(** A decoder of stored issues that knows two stored values. *)
Definition exampleUnmarshalIssues (raw : string) : list IssueDetected :=
  if decide (raw = "[]") then []
  else [ {| issueType := "tool_execution_failure"; Severity := "critical";
            Description := "tool call failed"; TurnID := 2 |} ].

Definition exampleAnnotation (who label : string) : @Annotation string :=
  {| annID := 0; annConversationID := "conv-1"; AnnotatorID := who;
     AnnotationType := "quality"; Label := label;
     Score := {| nullFloat64 := 0%float; nullFloat64Valid := false |};
     Confidence := {| nullFloat64 := 0%float; nullFloat64Valid := false |};
     Notes := {| nullString := ""; nullStringValid := false |};
     TimeSpentSeconds := {| nullInt32 := 0; nullInt32Valid := false |};
     annCreatedAt := "2024-05-01T10:00:00Z" |}.

Definition exampleEvaluation (score : float) (issues : string) : @Evaluation string :=
  {| evalID := 1; EvaluationID := "eval-1"; evalConversationID := "conv-1";
     OverallScore := score; ResponseQualityScore := score;
     ToolAccuracyScore := score; CoherenceScore := score;
     ToolEvaluation := "{}"; IssuesDetected := issues; ImprovementSuggestions := "[]";
     EvaluatorVersion := "1.0.0"; EvaluationDurationMS := 12;
     evalCreatedAt := "2024-05-01T10:00:00Z" |}.

Definition exampleTask (evaluatorTypes : option (list string))
    (payload : option (gmap string json)) : @Task string json :=
  {| ID := "task-1"; taskType := "evaluate"; taskConversationID := "conv-1";
     EvaluatorTypes := evaluatorTypes; Payload := payload;
     CreatedAt := "2024-05-01T10:00:00Z" |}.

Definition emptyRedis : Redis := {| connected := true; keyspace := ∅ |}.
Definition unreachableRedis : Redis := {| connected := false; keyspace := ∅ |}.

Definition exampleConversationCreate (conversationID : string)
    : @ConversationCreate string json :=
  {| ccConversationID := conversationID; ccAgentVersion := "v1";
     ccTurns := [ {| turnID := 1; Role := "user"; Content := "hello";
                     ToolCalls := []; Timestamp := "2024-05-01T09:59:00Z" |} ];
     ccFeedback := None; ccMetadata := None |}.

Definition tiedAnnotations : list (@Annotation string) :=
  [exampleAnnotation "alice" "good"; exampleAnnotation "bob" "bad"].

Definition splitAnnotations : list (@Annotation string) :=
  [exampleAnnotation "alice" "good"; exampleAnnotation "bob" "good";
   exampleAnnotation "carol" "bad"].

(** Two map iterations: the entries in the order the model's map lists
    them, and in the opposite order. *)
Definition forwardRange (m : gmap string Z) : list (string * Z) := map_to_list m.
Definition backwardRange (m : gmap string Z) : list (string * Z) := reverse (map_to_list m).

Lemma forwardRange_mapRange : mapRange forwardRange.
Proof. intros m. unfold rangeOrder, forwardRange. reflexivity. Qed.

Lemma backwardRange_mapRange : mapRange backwardRange.
Proof. intros m. unfold rangeOrder, backwardRange. apply reverse_Permutation. Qed.

Lemma exampleTask_fieldsSurvive evaluatorTypes payload :
  Forall validText (default [] evaluatorTypes) →
  map_Forall (λ k v, validText k) (default ∅ payload) →
  fieldsSurvive (exampleTask evaluatorTypes payload).
Proof.
  intros Hvalid Hkeys. unfold fieldsSurvive. simpl.
  split_and!; [by vm_compute | by vm_compute | by vm_compute | done | |].
  - intros k v Hkv. split; [by apply (Hkeys k v) | by exists v].
  - exists (JString "2024-05-01T10:00:00Z"). by split.
Qed.

(** C1, the claim as stated, fails: "good" and "bad" tie with one annotation
    each, "good" is met first in the input, and a map iteration that yields
    "bad" first makes "bad" the majority label. *)
Lemma C1_counterexample_tie_follows_map_order :
  tiedAnnotations ≠ [] ∧
  mapRange backwardRange ∧
  backwardRange (tally tiedAnnotations).2 = [("bad", 1); ("good", 1)] ∧
  MajorityLabel (computeAgreement 0.8%float backwardRange "conv-1" "quality" tiedAnnotations)
  = "bad" ∧
  firstEncounteredMajority tiedAnnotations = "good".
Proof.
  split_and!; [done | apply backwardRange_mapRange | by vm_compute | by vm_compute
              | by vm_compute].
Qed.

Lemma C1_witness :
  tiedAnnotations ≠ [] ∧ len tiedAnnotations ≤ maxInt ∧
  ∀ l, countLabel l tiedAnnotations ≤
       countLabel
         (MajorityLabel
            (computeAgreement 0.8%float backwardRange "conv-1" "quality" tiedAnnotations))
         tiedAnnotations.
Proof.
  assert (tiedAnnotations ≠ []) as Hne by done.
  assert (len tiedAnnotations ≤ maxInt) as Hlen by (by vm_compute).
  split_and!; [exact Hne | exact Hlen |].
  exact (proj1 (proj2 (C1_majority_label_has_highest_count 0.8%float
           backwardRange "conv-1" "quality" tiedAnnotations
           Hne Hlen backwardRange_mapRange))).
Defined.

(** C2, the claim as stated, fails: on the same annotations two runs whose
    map iteration differs return different majority labels. *)
Lemma C2_counterexample_two_runs_differ :
  mapRange forwardRange ∧ mapRange backwardRange ∧
  MajorityLabel (computeAgreement 0.8%float forwardRange "conv-1" "quality" tiedAnnotations)
  = "good" ∧
  MajorityLabel (computeAgreement 0.8%float backwardRange "conv-1" "quality" tiedAnnotations)
  = "bad" ∧
  computeAgreement 0.8%float forwardRange "conv-1" "quality" tiedAnnotations ≠
  computeAgreement 0.8%float backwardRange "conv-1" "quality" tiedAnnotations.
Proof.
  split_and!;
    [apply forwardRange_mapRange | apply backwardRange_mapRange
    | by vm_compute | by vm_compute |].
  intros Heq. apply (f_equal MajorityLabel) in Heq. vm_compute in Heq. discriminate Heq.
Qed.

Lemma C2_witness :
  len tiedAnnotations ≤ maxInt ∧
  AgreementScore (computeAgreement 0.8%float forwardRange "conv-1" "quality" tiedAnnotations)
  = AgreementScore
      (computeAgreement 0.8%float backwardRange "conv-1" "quality" tiedAnnotations).
Proof.
  assert (len tiedAnnotations ≤ maxInt) as Hlen by (by vm_compute).
  split; [exact Hlen |].
  exact (proj1 (proj2 (proj2 (proj2 (proj1
    (C2_recomputation exampleUnmarshalIssues 0.8%float "conv-1" "quality" tiedAnnotations
       forwardRange backwardRange
       (exampleEvaluation 0.9%float "[]") (exampleEvaluation 0.9%float "[]")
       Hlen forwardRange_mapRange backwardRange_mapRange)))))).
Defined.

Lemma C3_witness :
  len splitAnnotations ≤ maxInt ∧
  MajorityLabel (computeAgreement 0.8%float backwardRange "conv-1" "quality" splitAnnotations)
  = "good" ∧
  AgreementScore (computeAgreement 0.8%float backwardRange "conv-1" "quality" splitAnnotations)
  = PrimFloat.div 2%float 3%float ∧
  NeedsTiebreaker (computeAgreement 0.8%float backwardRange "conv-1" "quality" splitAnnotations)
  = true.
Proof.
  assert (len splitAnnotations ≤ maxInt) as Hlen by (by vm_compute).
  pose proof (proj2 (proj2 (proj2
    (C3_agreement_score_and_tiebreaker 0.8%float backwardRange
       "conv-1" "quality" splitAnnotations Hlen backwardRange_mapRange)))
    _ _ _ eq_refl eq_refl eq_refl eq_refl) as (Hlabel & Hscore & Hneeds).
  split_and!; [exact Hlen | exact Hlabel | exact Hscore |].
  exact (Hneeds eq_refl).
Defined.

Lemma C4_witness :
  len (exampleUnmarshalIssues "[stored issues]") ≤ maxInt ∧
  Priority (routeEvaluation exampleUnmarshalIssues "conv-1"
              (exampleEvaluation 0.3%float "[stored issues]")) = "high" ∧
  RoutingReason (routeEvaluation exampleUnmarshalIssues "conv-1"
                   (exampleEvaluation 0.3%float "[stored issues]"))
  = ["Low quality score"; "Critical issues detected"].
Proof.
  assert (len (exampleUnmarshalIssues "[stored issues]") ≤ maxInt) as Hlen by (by vm_compute).
  split; [exact Hlen |].
  apply (proj1 (proj2 (proj2
    (C4_routing_triggers exampleUnmarshalIssues "conv-1"
       (exampleEvaluation 0.3%float "[stored issues]") Hlen)))).
  - reflexivity.
  - eexists. split; [apply list_elem_of_here | reflexivity].
Defined.

(** C6, the claim as stated, fails for a configured threshold above 1.0:
    with no annotation and threshold 1.5 a tiebreaker is asked for. *)
Lemma C6_counterexample_threshold_above_one :
  mapRange forwardRange ∧
  NeedsTiebreaker
    (computeAgreement 1.5%float forwardRange "conv-1" "quality" (@nil (@Annotation string)))
  = true.
Proof. split; [apply forwardRange_mapRange | by vm_compute]. Qed.

Lemma C6_witness :
  mapRange forwardRange ∧
  NeedsTiebreaker
    (computeAgreement 0.8%float forwardRange "conv-1" "quality" (@nil (@Annotation string)))
  = false.
Proof.
  split; [exact forwardRange_mapRange |].
  exact (proj2 (proj2 (proj2
    (C6_zero_annotations 0.8%float forwardRange "conv-1" "quality" forwardRange_mapRange)))
    eq_refl).
Defined.

Definition exampleServer (redis : Redis) : Server :=
  {| repo := snd (storeConversation (exampleConversationCreate "conv-1") ∅);
     queue := redis |}.

Definition exampleRequest (conversationID : string) : EvaluationRequest :=
  {| reqConversationID := conversationID; reqEvaluatorTypes := None |}.

Lemma C7_witness :
  (Enqueue "evaluations"
     (Some (triggerTask (exampleRequest "conv-1") "task-1" "2024-05-01T10:00:00Z"))
     unreachableRedis).1 = Some errConnection ∧
  status (triggerEvaluation (Ok (exampleRequest "conv-1")) "task-1" "2024-05-01T10:00:00Z"
            (exampleServer unreachableRedis)).1 = StatusInternalServerError ∧
  status (createConversation (Ok (exampleConversationCreate "conv-2")) None "task-1"
            "2024-05-01T10:00:00Z" (exampleServer unreachableRedis)).1 = StatusCreated.
Proof.
  pose proof (C7_dispatch_failure
    (exampleRequest "conv-1") (exampleConversationCreate "conv-2") None
    "task-1" "2024-05-01T10:00:00Z" (exampleServer unreachableRedis)
    {| convID := 1; ConversationID := "conv-1"; AgentVersion := "v1";
       Turns := "[]"; Metadata := "{}";
       convCreatedAt := "2024-05-01T10:00:00Z"; convUpdatedAt := "2024-05-01T10:00:00Z" |}
    {| convID := 2; ConversationID := "conv-2"; AgentVersion := "v1";
       Turns := "[]"; Metadata := "{}";
       convCreatedAt := "2024-05-01T10:00:00Z"; convUpdatedAt := "2024-05-01T10:00:00Z" |}
    (snd (storeConversation (exampleConversationCreate "conv-2")
            (repo (exampleServer unreachableRedis))))
    errConnection errConnection) as Hclaim.
  destruct Hclaim as (Htrigger & Hcreate & _).
  - by vm_compute.
  - by vm_compute.
  - reflexivity.
  - reflexivity.
  - split_and!; [reflexivity | by rewrite Htrigger | by rewrite Hcreate].
Defined.

(** C8, the claim as stated, fails: a task whose [evaluator_types] is an
    empty, non-nil slice and whose [payload] is an empty, non-nil map is
    enqueued without error and dequeued with both fields nil. *)
Lemma C8_counterexample_empty_fields_come_back_nil :
  fieldsSurvive (exampleTask (Some []) (Some ∅)) ∧
  (Enqueue "evaluations" (Some (exampleTask (Some []) (Some ∅))) emptyRedis).1 = None ∧
  - Second < 5 * Second ∧
  Dequeue "evaluations" (5 * Second)
    (Enqueue "evaluations" (Some (exampleTask (Some []) (Some ∅))) emptyRedis).2
  = Some ((Some (exampleTask None None), None), emptyRedis) ∧
  exampleTask None None ≠ exampleTask (Some []) (Some ∅).
Proof.
  split_and!; [| by vm_compute | by vm_compute | by vm_compute | done].
  apply exampleTask_fieldsSurvive; [done | simpl; apply map_Forall_empty].
Qed.

(** The other conditions of C8 are needed as well: each of the two empty
    fields alone comes back nil, and an identifier that is not valid UTF-8
    comes back with U+FFFD in place of the offending byte. *)
Lemma empty_slice_comes_back_nil :
  Dequeue "evaluations" (5 * Second)
    (Enqueue "evaluations" (Some (exampleTask (Some []) None)) emptyRedis).2
  = Some ((Some (exampleTask None None), None), emptyRedis).
Proof. by vm_compute. Qed.

Lemma empty_payload_comes_back_nil :
  Dequeue "evaluations" (5 * Second)
    (Enqueue "evaluations" (Some (exampleTask None (Some ∅))) emptyRedis).2
  = Some ((Some (exampleTask None None), None), emptyRedis).
Proof. by vm_compute. Qed.

Lemma invalid_utf8_comes_back_replaced :
  let t := {| ID := String "255"%char "task"; taskType := "evaluate";
              taskConversationID := "conv-1";
              EvaluatorTypes := None; Payload := @None (gmap string json);
              CreatedAt := "2024-05-01T10:00:00Z" |} in
  (out ← Dequeue "evaluations" (5 * Second) (Enqueue "evaluations" (Some t) emptyRedis).2;
   ID <$> out.1.1)
  = Some (replacementChar ++ "task")%string.
Proof. by vm_compute. Qed.

Lemma C8_witness :
  fieldsSurvive (exampleTask (Some defaultEvaluatorTypes) (Some {["attempt" := JNumber "2"]})) ∧
  - Second < 5 * Second ∧
  ∃ r1,
    Enqueue "evaluations"
      (Some (exampleTask (Some defaultEvaluatorTypes) (Some {["attempt" := JNumber "2"]})))
      emptyRedis
    = (None, r1) ∧
    Dequeue "evaluations" (5 * Second) r1
    = Some ((Some (exampleTask (Some defaultEvaluatorTypes)
                     (Some {["attempt" := JNumber "2"]})),
             None), emptyRedis).
Proof.
  assert (fieldsSurvive
            (exampleTask (Some defaultEvaluatorTypes) (Some {["attempt" := JNumber "2"]})))
    as Hfields.
  { apply exampleTask_fieldsSurvive.
    - simpl. repeat constructor; by vm_compute.
    - simpl. apply map_Forall_singleton. by vm_compute. }
  assert (- Second < 5 * Second) as Htimeout by (by vm_compute).
  split; [exact Hfields |]. split; [exact Htimeout |].
  refine (C8_enqueue_dequeue_roundtrip "evaluations" (5 * Second)
            (exampleTask (Some defaultEvaluatorTypes) (Some {["attempt" := JNumber "2"]}))
            emptyRedis eq_refl (lookup_empty _) Hfields _ _ Htimeout).
  - done.
  - simpl. intros Hempty. apply (f_equal (λ m, m ≫= (.!! "attempt"))) in Hempty.
    simpl in Hempty. by rewrite lookup_singleton_eq, lookup_empty in Hempty.
Defined.

Lemma C9_witness :
  keyspace emptyRedis !! "calibration:last" = None ∧
  Get "calibration:last" (JString "previous") emptyRedis = (None, JString "previous").
Proof.
  split; [apply lookup_empty |].
  exact (proj2 (C9_get_missing_key "calibration:last" (JString "previous") emptyRedis
                  eq_refl (lookup_empty _))).
Defined.

Lemma C10_witness :
  repoGetConversation "conv-404" (repo (exampleServer emptyRedis)) = Ok None ∧
  (triggerEvaluation (Ok (exampleRequest "conv-404")) "task-1" "2024-05-01T10:00:00Z"
     (exampleServer emptyRedis)).2 = exampleServer emptyRedis.
Proof.
  assert (repoGetConversation "conv-404" (repo (exampleServer emptyRedis)) = Ok None)
    as Hmissing by (by vm_compute).
  split; [exact Hmissing |].
  exact (proj1 (proj2
    (C10_trigger_unknown_conversation (exampleRequest "conv-404") "task-1"
       "2024-05-01T10:00:00Z" (exampleServer emptyRedis) Hmissing))).
Defined.

(** ** Runs of the queue, the key-value store and the handlers *)

Definition numberedTask (taskID : string) : @Task string json :=
  {| ID := taskID; taskType := "evaluate"; taskConversationID := "conv-1";
     EvaluatorTypes := Some defaultEvaluatorTypes; Payload := None;
     CreatedAt := "2024-05-01T10:00:00Z" |}.

Definition threeTasks : list (@Task string json) :=
  [numberedTask "task-1"; numberedTask "task-2"; numberedTask "task-3"].

(** A queue whose head was not written by [Enqueue]: its id is a number. *)
Definition strayRedis : Redis :=
  {| connected := true;
     keyspace := {["evaluations" :=
                     RList [JObject [("id", JNumber "7")]; JNull]]} |}.

Definition emptyStore : Store :=
  {| server := emptyRedis; deadlines := ∅; clock := 0 |}.

(** One minute, as a [time.Duration]. *)
Definition Minute : Z := 60 * 1000 * Millisecond.

Definition exampleTime : string := "2024-05-01T10:00:00Z".

(** The timeout of a worker: five seconds. *)
Definition fiveSeconds : Z := 5 * Second.

Lemma fiveSeconds_sent : - Second < fiveSeconds.
Proof. by vm_compute. Qed.

Lemma exampleTime_survives : timeSurvives exampleTime.
Proof. exists (JString exampleTime). by split. Qed.

Lemma threeTasks_fieldsSurvive : Forall fieldsSurvive threeTasks.
Proof.
  repeat constructor; try (by vm_compute); try apply map_Forall_empty;
    apply exampleTime_survives.
Qed.

Lemma queue_first_in_first_out_witness :
  Forall fieldsSurvive threeTasks ∧ - Second < fiveSeconds ∧
  (enqueueAll "evaluations" threeTasks emptyRedis).1 = [None; None; None] ∧
  dequeueN "evaluations" fiveSeconds 3 (enqueueAll "evaluations" threeTasks emptyRedis).2
  = Some ([(Some (numberedTask "task-1"), None); (Some (numberedTask "task-2"), None);
           (Some (numberedTask "task-3"), None)], emptyRedis).
Proof.
  split; [exact threeTasks_fieldsSurvive |]. split; [exact fiveSeconds_sent |].
  exact (queue_first_in_first_out "evaluations" fiveSeconds threeTasks emptyRedis
           eq_refl (lookup_empty _) threeTasks_fieldsSurvive fiveSeconds_sent).
Defined.

Definition oneTaskRedis : Redis :=
  (Enqueue "evaluations" (Some (numberedTask "task-1")) emptyRedis).2.

Lemma Enqueue_grows_queue_witness :
  Enqueue "evaluations" (Some (numberedTask "task-2")) oneTaskRedis
  = (None, (Enqueue "evaluations" (Some (numberedTask "task-2")) oneTaskRedis).2) ∧
  ∃ n, QueueLength "evaluations" oneTaskRedis = Ok n ∧
       QueueLength "evaluations"
         (Enqueue "evaluations" (Some (numberedTask "task-2")) oneTaskRedis).2 = Ok (n + 1) ∧
       ∀ key, key ≠ "evaluations" →
         keyspace (Enqueue "evaluations" (Some (numberedTask "task-2")) oneTaskRedis).2 !! key
         = keyspace oneTaskRedis !! key.
Proof.
  assert (Enqueue "evaluations" (Some (numberedTask "task-2")) oneTaskRedis
          = (None, (Enqueue "evaluations" (Some (numberedTask "task-2")) oneTaskRedis).2))
    as Henq by (by vm_compute).
  split; [exact Henq |].
  exact (Enqueue_grows_queue "evaluations" (Some (numberedTask "task-2")) oneTaskRedis _ Henq).
Defined.

Lemma Dequeue_shrinks_queue_witness :
  Dequeue "evaluations" fiveSeconds oneTaskRedis
  = Some ((Some (numberedTask "task-1"), None), emptyRedis) ∧
  ∃ n, QueueLength "evaluations" oneTaskRedis = Ok n ∧ 0 < n ∧
       QueueLength "evaluations" emptyRedis = Ok (n - 1) ∧
       ∀ key, key ≠ "evaluations" → keyspace emptyRedis !! key = keyspace oneTaskRedis !! key.
Proof.
  assert (Dequeue "evaluations" fiveSeconds oneTaskRedis
          = Some ((Some (numberedTask "task-1"), None), emptyRedis))
    as Hdeq by (by vm_compute).
  split; [exact Hdeq |].
  exact (Dequeue_shrinks_queue "evaluations" fiveSeconds oneTaskRedis _ _ Hdeq).
Defined.

Lemma Dequeue_drops_undecodable_witness :
  keyspace strayRedis !! "evaluations" = Some (RList [JObject [("id", JNumber "7")]; JNull]) ∧
  unmarshalTask (JObject [("id", JNumber "7")]) (@zeroTask string json _)
  = Err "json: cannot unmarshal number into Go struct field Task.id of type string" ∧
  - Second < fiveSeconds ∧
  ∃ message r',
    Dequeue "evaluations" fiveSeconds strayRedis
    = Some ((None, Some ("failed to unmarshal task: " ++ message)%string), r') ∧
    pending "evaluations" r' = [JNull] ∧
    QueueLength "evaluations" r' = Ok 1.
Proof.
  assert (keyspace strayRedis !! "evaluations"
          = Some (RList [JObject [("id", JNumber "7")]; JNull])) as Hkey by (by vm_compute).
  assert (unmarshalTask (JObject [("id", JNumber "7")]) (@zeroTask string json _)
          = Err "json: cannot unmarshal number into Go struct field Task.id of type string")
    as Hdata by (by vm_compute).
  split; [exact Hkey |]. split; [exact Hdata |]. split; [exact fiveSeconds_sent |].
  exact (Dequeue_drops_undecodable "evaluations" fiveSeconds strayRedis _ _ _
           eq_refl Hkey Hdata fiveSeconds_sent).
Defined.

Lemma Enqueue_nil_task_witness :
  keyspace emptyRedis !! "evaluations" = None ∧ - Second < fiveSeconds ∧
  ∃ r1, Enqueue "evaluations" (@None (@Task string json)) emptyRedis = (None, r1) ∧
        QueueLength "evaluations" r1 = Ok 1 ∧
        Dequeue "evaluations" fiveSeconds r1 = Some ((Some zeroTask, None), emptyRedis).
Proof.
  split; [apply lookup_empty |]. split; [exact fiveSeconds_sent |].
  exact (Enqueue_nil_task "evaluations" fiveSeconds emptyRedis eq_refl (lookup_empty _)
           fiveSeconds_sent).
Defined.

Lemma Delete_removes_witness :
  Delete "evaluations" oneTaskRedis = (None, emptyRedis) ∧
  QueueLength "evaluations" emptyRedis = Ok 0 ∧
  Dequeue (GoTime := string) (Value := json) "evaluations" fiveSeconds emptyRedis
  = Some ((None, None), emptyRedis) ∧
  Get "evaluations" (JString "previous") emptyRedis = (None, JString "previous").
Proof.
  assert (Delete "evaluations" oneTaskRedis = (None, emptyRedis)) as Hdel by (by vm_compute).
  assert (0 < fiveSeconds) as Hpos by (by vm_compute).
  split; [exact Hdel |].
  pose proof (Delete_removes "evaluations" fiveSeconds (JString "previous") oneTaskRedis _ Hdel)
    as (_ & Hlength & Hnothing & Hget).
  split_and!; [exact Hlength | exact (Hnothing Hpos) | exact Hget].
Defined.

Lemma Set_then_Get_witness :
  connected (server emptyStore) = true ∧
  marshalValue (JNumber "0.85") = Ok (JNumber "0.85") ∧
  (SetKey "calibration:last" (JNumber "0.85") Minute emptyStore).1 = None ∧
  Get "calibration:last" (JString "previous")
    (server (SetKey "calibration:last" (JNumber "0.85") Minute emptyStore).2)
  = (None, JNumber "0.85") ∧
  Dequeue (GoTime := string) (Value := json) "calibration:last" fiveSeconds
    (server (SetKey "calibration:last" (JNumber "0.85") Minute emptyStore).2)
  = Some ((None, Some ("failed to dequeue task: " ++ errWrongType)%string),
          server (SetKey "calibration:last" (JNumber "0.85") Minute emptyStore).2).
Proof.
  split; [reflexivity |]. split; [reflexivity |].
  pose proof (Set_then_Get (GoTime := string) "calibration:last" (JNumber "0.85") Minute
                (JString "previous") fiveSeconds emptyStore (JNumber "0.85") eq_refl eq_refl)
    as (Hset & Hget & _ & _ & Hdequeue).
  split_and!; [exact Hset | exact Hget | exact (Hdequeue fiveSeconds_sent)].
Defined.

Lemma Set_expires_witness :
  0 < Minute ∧ timeToLive Minute = 60000 ∧
  Get "calibration:last" (JString "previous")
    (server (elapse 59999 (SetKey "calibration:last" (JNumber "0.85") Minute emptyStore).2))
  = (None, JNumber "0.85") ∧
  Get "calibration:last" (JString "previous")
    (server (elapse 60001 (SetKey "calibration:last" (JNumber "0.85") Minute emptyStore).2))
  = (None, JString "previous").
Proof.
  assert (0 < Minute) as Hpos by (by vm_compute).
  split; [exact Hpos |]. split; [reflexivity |].
  pose proof (Set_expires "calibration:last" (JNumber "0.85") Minute (JString "previous")
                emptyStore (JNumber "0.85") 59999 eq_refl eq_refl Hpos) as [Hbefore _].
  pose proof (Set_expires "calibration:last" (JNumber "0.85") Minute (JString "previous")
                emptyStore (JNumber "0.85") 60001 eq_refl eq_refl Hpos) as [_ Hafter].
  split; [apply Hbefore; by vm_compute | apply Hafter; by vm_compute].
Defined.

Lemma Set_without_expiration_stays_witness :
  0 ≤ 0 ∧ 0 ≠ KeepTTL ∧
  Get "calibration:last" (JString "previous")
    (server (elapse 60001
       (SetKey "calibration:last" (JNumber "0.9") 0
          (SetKey "calibration:last" (JNumber "0.85") Minute emptyStore).2).2))
  = (None, JNumber "0.9").
Proof.
  assert (0 ≠ KeepTTL) as Hkeep by done.
  split; [done |]. split; [exact Hkeep |].
  exact (Set_without_expiration_stays "calibration:last" (JNumber "0.9") 0
           (JString "previous")
           (SetKey "calibration:last" (JNumber "0.85") Minute emptyStore).2
           (JNumber "0.9") 60001 eq_refl eq_refl (Z.le_refl 0) Hkeep).
Defined.

Definition storedConversation (n : Z) (conversationID : string) : @Conversation string :=
  {| convID := n; ConversationID := conversationID; AgentVersion := "v1";
     Turns := "[]"; Metadata := "{}";
     convCreatedAt := "2024-05-01T10:00:00Z"; convUpdatedAt := "2024-05-01T10:00:00Z" |}.

(** A request that names its evaluators. *)
Definition coherenceRequest : EvaluationRequest :=
  {| reqConversationID := "conv-1"; reqEvaluatorTypes := Some ["coherence"; "tool_call"] |}.

Lemma triggerEvaluation_then_Dequeue_witness :
  repoGetConversation "conv-1" (repo (exampleServer emptyRedis))
  = Ok (Some (storedConversation 1 "conv-1")) ∧
  validText "task-1" ∧ validText "conv-1" ∧
  Forall validText ["coherence"; "tool_call"] ∧ timeSurvives exampleTime ∧
  - Second < fiveSeconds ∧
  Dequeue "evaluations" fiveSeconds
    (queue (triggerEvaluation (Ok coherenceRequest) "task-1" exampleTime
              (exampleServer emptyRedis)).2)
  = Some ((Some {| ID := "task-1"; taskType := "evaluate"; taskConversationID := "conv-1";
                   EvaluatorTypes := Some ["coherence"; "tool_call"];
                   Payload := None; CreatedAt := exampleTime |}, None), emptyRedis) ∧
  Dequeue "evaluations" fiveSeconds
    (queue (triggerEvaluation (Ok (exampleRequest "conv-1")) "task-1" exampleTime
              (exampleServer emptyRedis)).2)
  = Some ((Some {| ID := "task-1"; taskType := "evaluate"; taskConversationID := "conv-1";
                   EvaluatorTypes := Some ["llm_judge"; "tool_call"; "coherence"; "heuristic"];
                   Payload := None; CreatedAt := exampleTime |}, None), emptyRedis).
Proof.
  assert (repoGetConversation "conv-1" (repo (exampleServer emptyRedis))
          = Ok (Some (storedConversation 1 "conv-1"))) as Hstored by (by vm_compute).
  assert (validText "task-1") as Hid by (by vm_compute).
  assert (validText "conv-1") as Hconv by (by vm_compute).
  assert (Forall validText ["coherence"; "tool_call"]) as Htypes
    by (repeat constructor; by vm_compute).
  split_and!; [exact Hstored | exact Hid | exact Hconv | exact Htypes
              | exact exampleTime_survives | exact fiveSeconds_sent | |].
  - exact (proj2
      (triggerEvaluation_then_Dequeue coherenceRequest "task-1" exampleTime fiveSeconds
         (exampleServer emptyRedis) _ Hstored eq_refl (lookup_empty _) Hid Hconv
         Htypes exampleTime_survives fiveSeconds_sent)).
  - exact (proj2
      (triggerEvaluation_then_Dequeue (exampleRequest "conv-1") "task-1" exampleTime
         fiveSeconds (exampleServer emptyRedis) _ Hstored eq_refl (lookup_empty _) Hid Hconv
         (Forall_nil_2 _) exampleTime_survives fiveSeconds_sent)).
Defined.

Lemma createConversation_then_Dequeue_witness :
  repoCreateConversation (exampleConversationCreate "conv-2") (repo (exampleServer emptyRedis))
  = (Ok (storedConversation 2 "conv-2"),
     snd (storeConversation (exampleConversationCreate "conv-2")
            (repo (exampleServer emptyRedis)))) ∧
  validText "task-2" ∧ validText "conv-2" ∧ timeSurvives exampleTime ∧
  - Second < fiveSeconds ∧
  QueueLength "evaluations"
    (queue (createConversation (Ok (exampleConversationCreate "conv-2")) None "task-2"
              exampleTime (exampleServer emptyRedis)).2) = Ok 1 ∧
  Dequeue "evaluations" fiveSeconds
    (queue (createConversation (Ok (exampleConversationCreate "conv-2")) None "task-2"
              exampleTime (exampleServer emptyRedis)).2)
  = Some ((Some {| ID := "task-2"; taskType := "evaluate"; taskConversationID := "conv-2";
                   EvaluatorTypes := Some defaultEvaluatorTypes; Payload := None;
                   CreatedAt := exampleTime |}, None), emptyRedis).
Proof.
  assert (repoCreateConversation (exampleConversationCreate "conv-2")
            (repo (exampleServer emptyRedis))
          = (Ok (storedConversation 2 "conv-2"),
             snd (storeConversation (exampleConversationCreate "conv-2")
                    (repo (exampleServer emptyRedis))))) as Hcreated by (by vm_compute).
  assert (validText "task-2") as Hid by (by vm_compute).
  assert (validText "conv-2") as Hconv by (by vm_compute).
  split_and!; [exact Hcreated | exact Hid | exact Hconv | exact exampleTime_survives
              | exact fiveSeconds_sent | |].
  - exact (proj1 (proj2
      (createConversation_then_Dequeue (exampleConversationCreate "conv-2") None "task-2"
         exampleTime fiveSeconds (exampleServer emptyRedis) _ _ Hcreated (or_introl eq_refl)
         eq_refl (lookup_empty _) Hid Hconv exampleTime_survives fiveSeconds_sent))).
  - exact (proj2 (proj2
      (createConversation_then_Dequeue (exampleConversationCreate "conv-2") None "task-2"
         exampleTime fiveSeconds (exampleServer emptyRedis) _ _ Hcreated (or_introl eq_refl)
         eq_refl (lookup_empty _) Hid Hconv exampleTime_survives fiveSeconds_sent))).
Defined.

Lemma routing_review_only_on_trigger_witness :
  len (exampleUnmarshalIssues "[]") ≤ maxInt ∧
  NeedsHumanReview (routeEvaluation exampleUnmarshalIssues "conv-1"
                      (exampleEvaluation 0.9%float "[]")) = false ∧
  Priority (routeEvaluation exampleUnmarshalIssues "conv-1"
              (exampleEvaluation 0.9%float "[]")) = "low" ∧
  RoutingReason (routeEvaluation exampleUnmarshalIssues "conv-1"
                   (exampleEvaluation 0.9%float "[]")) = [].
Proof.
  assert (len (exampleUnmarshalIssues "[]") ≤ maxInt) as Hlen by (by vm_compute).
  assert (NeedsHumanReview (routeEvaluation exampleUnmarshalIssues "conv-1"
                              (exampleEvaluation 0.9%float "[]")) = false)
    as Hneeds by reflexivity.
  pose proof (routing_review_only_on_trigger exampleUnmarshalIssues "conv-1"
                (exampleEvaluation 0.9%float "[]") Hlen) as (_ & Hpriority & _ & _ & Hreason).
  split_and!; [exact Hlen | exact Hneeds | | exact (proj2 Hreason Hneeds)].
  rewrite Hpriority, Hneeds. reflexivity.
Defined.

Lemma single_annotation_agrees_witness :
  mapRange backwardRange ∧
  MajorityLabel (computeAgreement 0.8%float backwardRange "conv-1" "quality"
                   [exampleAnnotation "alice" "good"]) = "good" ∧
  AgreementScore (computeAgreement 0.8%float backwardRange "conv-1" "quality"
                    [exampleAnnotation "alice" "good"]) = 1%float ∧
  NeedsTiebreaker (computeAgreement 0.8%float backwardRange "conv-1" "quality"
                     [exampleAnnotation "alice" "good"]) = false.
Proof.
  pose proof (single_annotation_agrees 0.8%float backwardRange "conv-1" "quality"
                (exampleAnnotation "alice" "good") backwardRange_mapRange)
    as (Hmajority & Hscore & Hneeds & _).
  split_and!; [exact backwardRange_mapRange | exact Hmajority | exact Hscore | exact Hneeds].
Defined.

Lemma two_annotators_disagree_witness :
  mapRange backwardRange ∧
  Label (exampleAnnotation "alice" "good") ≠ Label (exampleAnnotation "bob" "bad") ∧
  AgreementScore (computeAgreement 0.8%float backwardRange "conv-1" "quality" tiedAnnotations)
  = 0.5%float ∧
  NeedsTiebreaker (computeAgreement 0.8%float backwardRange "conv-1" "quality" tiedAnnotations)
  = true.
Proof.
  assert (Label (exampleAnnotation "alice" "good") ≠ Label (exampleAnnotation "bob" "bad"))
    as Hdiffer by done.
  pose proof (two_annotators_disagree 0.8%float backwardRange "conv-1" "quality"
                (exampleAnnotation "alice" "good") (exampleAnnotation "bob" "bad")
                backwardRange_mapRange Hdiffer) as (_ & Hscore & Hneeds & Hdefault).
  split_and!; [exact backwardRange_mapRange | exact Hdiffer | exact Hscore |].
  exact (eq_trans Hneeds Hdefault).
Defined.

Lemma Enqueue_goes_behind_witness :
  keyspace oneTaskRedis !! "evaluations"
  = Some (RList [JObject [("id", JString "task-1"); ("type", JString "evaluate");
                          ("conversation_id", JString "conv-1");
                          ("evaluator_types",
                           JArray [JString "llm_judge"; JString "tool_call";
                                   JString "coherence"; JString "heuristic"]);
                          ("created_at", JString "2024-05-01T10:00:00Z")]]) ∧
  (Enqueue "evaluations" (Some (numberedTask "task-2")) oneTaskRedis).1 = None ∧
  - Second < fiveSeconds ∧
  ∃ r2,
    Dequeue "evaluations" fiveSeconds oneTaskRedis
    = Some ((Some (numberedTask "task-1"), None), emptyRedis) ∧
    Dequeue "evaluations" fiveSeconds
      (Enqueue "evaluations" (Some (numberedTask "task-2")) oneTaskRedis).2
    = Some ((Some (numberedTask "task-1"), None), r2) ∧
    length (pending "evaluations" r2) = 1%nat.
Proof.
  assert (keyspace oneTaskRedis !! "evaluations"
          = Some (RList [JObject [("id", JString "task-1"); ("type", JString "evaluate");
                                  ("conversation_id", JString "conv-1");
                                  ("evaluator_types",
                                   JArray [JString "llm_judge"; JString "tool_call";
                                           JString "coherence"; JString "heuristic"]);
                                  ("created_at", JString "2024-05-01T10:00:00Z")]]))
    as Hkey by (by vm_compute).
  assert ((Enqueue "evaluations" (Some (numberedTask "task-2")) oneTaskRedis).1 = None)
    as Hok by (by vm_compute).
  split; [exact Hkey |]. split; [exact Hok |]. split; [exact fiveSeconds_sent |].
  destruct (Enqueue_goes_behind "evaluations" fiveSeconds (Some (numberedTask "task-2"))
              oneTaskRedis _ [] eq_refl Hkey Hok fiveSeconds_sent)
    as (out & r1 & r2 & doc & Hfirst & Hsecond & _ & _ & Hpending).
  assert (Dequeue "evaluations" fiveSeconds oneTaskRedis
          = Some ((Some (numberedTask "task-1"), None), emptyRedis))
    as Hout by (by vm_compute).
  rewrite Hout in Hfirst. injection Hfirst as <- <-.
  exists r2. split_and!; [reflexivity | exact Hsecond | by rewrite Hpending].
Defined.
